(** * Moonraker monitor: the polling engine of [moonraker-action.ts]

    A shallow embedding of [src/actions/moonraker-action.ts]: the settings
    validator, the endpoint builder, the fetch cycle, the display reducer and
    the per-instance scheduler, followed by the properties of the
    specification that concern them.

    How the TypeScript is read:
    - a [number] is an IEEE 754 binary64 value, here Rocq's primitive [float];
      comparisons and truthiness are defined on its decoding [Prim2SF];
    - a [string] is the UTF-8 encoding of the JavaScript string, a sequence
      of bytes (so the degree sign of a heater line is two bytes); case
      mapping acts on ASCII letters and leaves every other byte as it is; the
      white space of the regular expression is the ASCII and the Unicode
      white space of ECMAScript, each recognised by its encoding;
    - an optional property [p?: T] is an [option T]; the declared types of
      [MoonrakerSettings] and [MoonrakerPrinterObjects] are taken as given;
    - a promise the code awaits is given by its outcome ([Awaited]); the calls
      on the host ([setTitle], [setImage]) are recorded as effects and do not
      fail; of the logger only the [error] calls are recorded. *)

From Stdlib Require Import Floats SpecFloat ZArith QArith Qround Ascii String DecimalString.
From stdpp Require Import base option list strings gmap.

Local Open Scope string_scope.
Local Open Scope list_scope.
Local Open Scope Z_scope.
Local Open Scope stdpp_scope.

(** ** The JavaScript primitives the action uses *)

Module JS.

Abbreviation number := PrimFloat.float.

Definition code (c : ascii) : N := N_of_ascii c.

Definition toLowerChar (c : ascii) : ascii :=
  if ((65 <=? code c) && (code c <=? 90))%N then ascii_of_N (code c + 32) else c.

Definition toUpperChar (c : ascii) : ascii :=
  if ((97 <=? code c) && (code c <=? 122))%N then ascii_of_N (code c - 32) else c.

Fixpoint toLowerCase (s : string) : string :=
  match s with
  | EmptyString => EmptyString
  | String c r => String (toLowerChar c) (toLowerCase r)
  end.

Fixpoint toUpperCase (s : string) : string :=
  match s with
  | EmptyString => EmptyString
  | String c r => String (toUpperChar c) (toUpperCase r)
  end.

(** [s.charAt(i)]: the one-character string at [i], or the empty string. *)
Definition charAt (s : string) (i : nat) : string :=
  match String.get i s with
  | Some c => String c EmptyString
  | None => EmptyString
  end.

(** Relative index of [slice]: a negative index counts from the end. *)
Definition clampIndex (len i : Z) : Z :=
  if i <? 0 then Z.max (len + i) 0 else Z.min i len.

(** [s.slice(from, to)], [to] defaulting to the length. *)
Definition slice (s : string) (from : Z) (to : option Z) : string :=
  let len := Z.of_nat (String.length s) in
  let k := clampIndex len from in
  let final := clampIndex len (default len to) in
  String.substring (Z.to_nat k) (Z.to_nat (final - k)) s.

Definition startsWith (s p : string) : bool := String.prefix p s.

Definition endsWith (s p : string) : bool :=
  let ls := String.length s in
  let lp := String.length p in
  if (lp <=? ls)%nat then String.eqb (String.substring (ls - lp) lp s) p else false.

Fixpoint includes (s p : string) : bool :=
  String.prefix p s ||
  match s with
  | EmptyString => false
  | String _ r => includes r p
  end.

(** [lines.join(sep)] *)
Definition join (sep : string) (lines : list string) : string := String.concat sep lines.

(** The string of the given bytes. *)
Definition bytes (l : list Z) : string :=
  foldr (λ b r, String (ascii_of_N (Z.to_N b)) r) EmptyString l.

(** The line feed of a ['\n'] escape. *)
Definition nl : string := String (ascii_of_N 10) EmptyString.

(** ToBoolean on a string and on a number. *)
Definition truthyString (s : string) : bool :=
  match s with
  | EmptyString => false
  | String _ _ => true
  end.

Definition truthyNumber (x : number) : bool :=
  match Prim2SF x with
  | S754_zero _ | S754_nan => false
  | S754_infinity _ | S754_finite _ _ _ => true
  end.

(** ToBoolean on an optional property: [undefined] is falsy. *)
Definition truthy {A : Type} (t : A → bool) (o : option A) : bool :=
  match o with
  | Some a => t a
  | None => false
  end.

(** [x > y] on numbers. *)
Definition gt (x y : number) : bool := SFltb (Prim2SF y) (Prim2SF x).

(** [o === s] for an optional string [o] and a string [s]. *)
Definition strictEq (o : option string) (s : string) : bool :=
  match o with
  | Some x => String.eqb x s
  | None => false
  end.

Definition string_of_N (n : N) : string := NilZero.string_of_uint (N.to_uint n).

(** *** Math.round *)

Definition signed (s : bool) (z : Z) : Z := if s then - z else z.

(** The integer nearest to [(-1)^s * m * 2^e] for [e < 0], a tie going to
    the integer closer to plus infinity: [floor (x + 1/2)]. *)
Definition roundHalfUp (s : bool) (m : positive) (e : Z) : Z :=
  (2 * signed s (Z.pos m) + 2 ^ (- e)) / 2 ^ (1 - e).

(** [p * 2^n] *)
Fixpoint shiftLeft (p : positive) (n : nat) : positive :=
  match n with
  | O => p
  | S n => shiftLeft p~0 n
  end.

(** The binary64 number [(-1)^s * p] for an integer [p] of at most 53 bits,
    in the normal form of the format: a significand of 53 bits. *)
Definition integerSF (s : bool) (p : positive) : spec_float :=
  let d := Pos.to_nat (digits2_pos p) in
  S754_finite s (shiftLeft p (53 - d)) (Z.of_nat d - 53).

Definition Math_round (x : number) : number :=
  match Prim2SF x with
  | S754_finite s m e =>
      if 0 <=? e then x
      else
        let r := roundHalfUp s m e in
        if r =? 0 then (if s then (-0)%float else 0%float)
        else SF2Prim (integerSF s (Z.to_pos (Z.abs r)))
  | S754_zero _ | S754_infinity _ | S754_nan => x
  end.

(** *** Number::toString, radix 10 *)

Definition pow2Q (e : Z) : Q := Qpower 2 e.
Definition pow10Q (e : Z) : Q := Qpower 10 e.

Definition NumQ (m : positive) (e : Z) : Q := (inject_Z (Z.pos m) * pow2Q e)%Q.

(** The reals that round to the binary64 value [m * 2^e], as an interval
    with its two ends, and whether the ends belong to it (they do when the
    significand is even). *)
Definition roundingInterval (m : positive) (e : Z) : Q * Q * bool :=
  let hi := (inject_Z (2 * Z.pos m + 1) * pow2Q (e - 1))%Q in
  let lo := if (Z.pos m =? 2 ^ 52) && (-1074 <? e)
            then (inject_Z (4 * Z.pos m - 1) * pow2Q (e - 2))%Q
            else (inject_Z (2 * Z.pos m - 1) * pow2Q (e - 1))%Q in
  (lo, hi, Z.even (Z.pos m)).

Definition inInterval (iv : Q * Q * bool) (q : Q) : bool :=
  let '(lo, hi, closed) := iv in
  if closed then Qle_bool lo q && Qle_bool q hi
  else negb (Qle_bool q lo) && negb (Qle_bool hi q).

Definition estimateExponent (m : positive) (e : Z) : Z :=
  (Z.log2 (Z.pos m) + e) * 30103 / 100000 - 2.

(** The least [n] from the estimate on with [v < 10^n]. *)
Fixpoint decimalExponent (fuel : nat) (n : Z) (v : Q) : Z :=
  match fuel with
  | O => n
  | S f => if negb (Qle_bool (pow10Q n) v) then n else decimalExponent f (n + 1) v
  end.

Definition absQ (q : Q) : Q := if Qle_bool 0 q then q else Qopp q.

(** The pairs [(s, n)] with [s] of exactly [k] digits and [s * 10^(n-k)]
    rounding to the value. *)
Definition candidates (iv : Q * Q * bool) (v : Q) (N k : Z) : list (Z * Z) :=
  let try n :=
    let p := n - k in
    let s0 := Qfloor (v / pow10Q p)%Q in
    filter (λ '(s, _), bool_decide (10 ^ (k - 1) <= s < 10 ^ k)
                        && inInterval iv (inject_Z s * pow10Q p)%Q)
           [(s0, n); (s0 + 1, n)] in
  try N ++ try (N + 1).

Definition closer (v : Q) (k : Z) (a b : Z * Z) : Z * Z :=
  let d '(s, n) := absQ (inject_Z s * pow10Q (n - k) - v)%Q in
  if Qle_bool (d b) (d a) then
    if Qle_bool (d a) (d b) then (if Z.even a.1 then a else b) else b
  else a.

(** The shortest digit string: the least [k] with a candidate, and among its
    candidates the one closest to the value. *)
Fixpoint shortest (fuel : nat) (iv : Q * Q * bool) (v : Q) (N k : Z) : Z * Z * Z :=
  match fuel with
  | O => (0, 0, 0)
  | S f =>
      match candidates iv v N k with
      | [] => shortest f iv v N (k + 1)
      | c :: cs => let '(s, n) := foldl (closer v k) c cs in (s, n, k)
      end
  end.

Definition zeros (n : Z) : string := String.concat "" (replicate (Z.to_nat n) "0").

Definition formatDecimal (s n k : Z) : string :=
  let digits := string_of_N (Z.to_N s) in
  if (k <=? n) && (n <=? 21) then digits +:+ zeros (n - k)
  else if (0 <? n) && (n <=? 21) then
    String.substring 0 (Z.to_nat n) digits +:+ "." +:+
    String.substring (Z.to_nat n) (Z.to_nat (k - n)) digits
  else if (-6 <? n) && (n <=? 0) then "0." +:+ zeros (- n) +:+ digits
  else
    let ex := (if 0 <=? n - 1 then "+" else "-") +:+ string_of_N (Z.abs_N (n - 1)) in
    if k =? 1 then digits +:+ "e" +:+ ex
    else String.substring 0 1 digits +:+ "." +:+
         String.substring 1 (Z.to_nat (k - 1)) digits +:+ "e" +:+ ex.

(** The shortest digit string of [(-1)^sg * m * 2^e] in its format. *)
Definition shortestDigits (sg : bool) (m : positive) (e : Z) : string :=
  let v := NumQ m e in
  let '(s, n, k) :=
    shortest 17 (roundingInterval m e) v
             (decimalExponent 8 (estimateExponent m e) v) 1 in
  (if sg then "-" else "") +:+ formatDecimal s n k.

(** The magnitude [m * 2^e] when it is an integer below [2^53]. Such a value
    is the only binary64 number within a half of itself, so its shortest
    digit string is its decimal numeral, printed without an exponent. *)
Definition integerValue (m : positive) (e : Z) : option Z :=
  let n := Z.pos m * 2 ^ Z.max e 0 in
  let d := 2 ^ Z.max (- e) 0 in
  if (n mod d =? 0) && (n / d <? 2 ^ 53) then Some (n / d) else None.

(** The decimal numeral of an integer. *)
Definition decimal (r : Z) : string :=
  (if r <? 0 then "-" else "") +:+ string_of_N (Z.abs_N r).

(** What a template literal prints for a number. *)
Definition Number_toString (x : number) : string :=
  match Prim2SF x with
  | S754_nan => "NaN"
  | S754_zero _ => "0"
  | S754_infinity s => if s then "-Infinity" else "Infinity"
  | S754_finite sg m e =>
      match integerValue m e with
      | Some r => decimal (signed sg r)
      | None => shortestDigits sg m e
      end
  end.

(** *** Rounded to the nearest integer, in words of integers

    [r] is the integer nearest to [x = (-1)^s * m * 2^e], a tie going to the
    integer above: [r - 1/2 <= x < r + 1/2], both sides scaled by twice the
    denominator of [x]. *)
Definition nearestInteger (s : bool) (m : positive) (e : Z) (r : Z) : Prop :=
  (2 * r - 1) * 2 ^ Z.max (- e) 0
    <= 2 * signed s (Z.pos m) * 2 ^ Z.max e 0
    < (2 * r + 1) * 2 ^ Z.max (- e) 0.

(** [text] is what is printed for [x] rounded to the nearest integer: the
    decimal numeral of that integer, as long as the integer is below [2^53]
    (from there on every number is an integer, printed as it is). A number
    that is not finite has no nearest integer and is printed as itself. *)
Definition printsNearestInteger (x : number) (text : string) : Prop :=
  match Prim2SF x with
  | S754_finite s m e =>
      ∃ r : Z, nearestInteger s m e r
               ∧ (Z.abs r < 2 ^ 53 → text = decimal r)
               ∧ (2 ^ 53 <= Z.abs r → text = Number_toString x)
  | S754_zero _ => text = "0"
  | S754_infinity s => text = if s then "-Infinity" else "Infinity"
  | S754_nan => text = "NaN"
  end.

(** *** The pattern [/Layer\s*(\d+)\s*\/\s*(\d+)/i] *)

(** The white space [\s] of ECMAScript is WhiteSpace and LineTerminator:
    the ASCII characters U+0009 to U+000D and U+0020, and U+00A0, U+1680,
    U+2000 to U+200A, U+2028, U+2029, U+202F, U+205F, U+3000 and U+FEFF.
    [isSpace] is the ASCII part, [isSpace2] and [isSpace3] are the others by
    their encodings of two and of three bytes. *)
Definition isSpace (c : ascii) : bool :=
  ((9 <=? code c) && (code c <=? 13) || (code c =? 32))%N.

Definition isSpace2 (c1 c2 : ascii) : bool :=
  ((code c1 =? 194) && (code c2 =? 160))%N.

Definition isSpace3 (c1 c2 c3 : ascii) : bool :=
  (if code c1 =? 225 then (code c2 =? 154) && (code c3 =? 128)
   else if code c1 =? 226 then
     (code c2 =? 128)
       && ((128 <=? code c3) && (code c3 <=? 138)
           || (code c3 =? 168) || (code c3 =? 169) || (code c3 =? 175))
     || (code c2 =? 129) && (code c3 =? 159)
   else if code c1 =? 227 then (code c2 =? 128) && (code c3 =? 128)
   else if code c1 =? 239 then (code c2 =? 187) && (code c3 =? 191)
   else false)%N.

Definition isDigit (c : ascii) : bool := ((48 <=? code c) && (code c <=? 57))%N.

Fixpoint skipSpaces (s : string) : string :=
  match s with
  | EmptyString => EmptyString
  | String c1 r1 =>
      if isSpace c1 then skipSpaces r1
      else
        match r1 with
        | EmptyString => s
        | String c2 r2 =>
            if isSpace2 c1 c2 then skipSpaces r2
            else
              match r2 with
              | EmptyString => s
              | String c3 r3 => if isSpace3 c1 c2 c3 then skipSpaces r3 else s
              end
        end
  end.

Fixpoint takeDigits (s : string) : string * string :=
  match s with
  | EmptyString => (EmptyString, EmptyString)
  | String c r =>
      if isDigit c then let '(d, rest) := takeDigits r in (String c d, rest)
      else (EmptyString, s)
  end.

(** The literal [p] (given in lower case) at the head of [s], case ignored. *)
Fixpoint dropLiteral (p s : string) : option string :=
  match p, s with
  | EmptyString, _ => Some s
  | String a p', String b s' =>
      if Ascii.eqb a (toLowerChar b) then dropLiteral p' s' else None
  | String _ _, EmptyString => None
  end.

(** Both classes and the slash are disjoint, so the greedy reading of each
    star and plus is the only one a backtracking matcher can succeed with. *)
Definition matchLayerAt (s : string) : option (string * string) :=
  r ← dropLiteral "layer" s;
  let '(current, r) := takeDigits (skipSpaces r) in
  if truthyString current then
    match skipSpaces r with
    | String "/" r =>
        let '(total, _) := takeDigits (skipSpaces r) in
        if truthyString total then Some (current, total) else None
    | _ => None
    end
  else None.

(** [message.match(...)]: the leftmost match, as its two groups. *)
Fixpoint matchLayer (s : string) : option (string * string) :=
  match matchLayerAt s with
  | Some groups => Some groups
  | None =>
      match s with
      | EmptyString => None
      | String _ r => matchLayer r
      end
  end.

End JS.

Import JS.

(** ** Data model *)

Record MoonrakerSettings := {
  baseUrl : option string;
  port : option string;
  apiKey : option string;
  pollingInterval : option number;
  displayBedTemp : option bool;
  displayHotendTemp : option bool;
  displayPrintStatus : option bool;
  displayPrintProgress : option bool;
  displayLayerInfo : option bool
}.

(** The settings [{}]. *)
Definition emptySettings : MoonrakerSettings :=
  {| baseUrl := None; port := None; apiKey := None; pollingInterval := None;
     displayBedTemp := None; displayHotendTemp := None; displayPrintStatus := None;
     displayPrintProgress := None; displayLayerInfo := None |}.

Record Heater := { temperature : number; target : number }.

Record LayerInfo := { current_layer : option number; total_layer : option number }.

Record PrintStats := {
  state : string;
  filename : option string;
  info : option LayerInfo
}.

Record VirtualSdcard := { progress : number }.

Record DisplayStatus := { message : string }.

Record MoonrakerPrinterObjects := {
  heater_bed : option Heater;
  extruder : option Heater;
  print_stats : option PrintStats;
  virtual_sdcard : option VirtualSdcard;
  display_status : option DisplayStatus
}.

(** ** Settings validator *)

Definition isValidSettings (settings : MoonrakerSettings) : bool :=
  truthy truthyString (baseUrl settings)
  && truthy truthyNumber (pollingInterval settings)
  && truthy (λ x, gt x 0%float) (pollingInterval settings).

(** ** Endpoint builder: the head of [fetchDataAndUpdateKey] *)

Definition withPort (settings : MoonrakerSettings) : string :=
  let url := default "" (baseUrl settings) in
  match port settings with
  | Some p =>
      if truthyString p then
        let url := if endsWith url "/" then slice url 0 (Some (-1)) else url in
        url +:+ ":" +:+ p
      else url
  | None => url
  end.

Definition withScheme (url : string) : string :=
  if negb (startsWith url "http://") && negb (startsWith url "https://")
  then "http://" +:+ url
  else url.

Definition queryPath : string :=
  "/printer/objects/query?print_stats&heater_bed&extruder&display_status&virtual_sdcard".

Definition endpoint (settings : MoonrakerSettings) : string :=
  withScheme (withPort settings) +:+ queryPath.

Definition requestHeaders (settings : MoonrakerSettings) : list (string * string) :=
  let headers := [("Content-Type", "application/json")] in
  match apiKey settings with
  | Some key => if truthyString key then headers ++ [("X-Api-Key", key)] else headers
  | None => headers
  end.

(** ** Display reducer: [updateKeyDisplay] *)

Definition on (toggle : option bool) : bool := truthy id toggle.

Definition currentPrintState (status : MoonrakerPrinterObjects) : option string :=
  ps ← print_stats status; Some (toLowerCase (state ps)).

Definition displayablePrintState (status : MoonrakerPrinterObjects) : string :=
  let displayable :=
    match currentPrintState status with
    | Some c =>
        if truthyString c then toUpperCase (charAt c 0) +:+ slice c 1 None else "Unknown"
    | None => "Unknown"
    end in
  if String.eqb displayable "Standby" then "Idle" else displayable.

Definition printingOrPaused (status : MoonrakerPrinterObjects) : bool :=
  strictEq (currentPrintState status) "printing"
  || strictEq (currentPrintState status) "paused".

Definition statusLine (status : MoonrakerPrinterObjects) (settings : MoonrakerSettings)
  : option string :=
  if on (displayPrintStatus settings) && truthy truthyString (currentPrintState status)
  then Some (displayablePrintState status)
  else None.

Definition heaterLine (prefix : string) (toggle : option bool) (heater : option Heater)
  : option string :=
  match heater with
  | Some h =>
      if on toggle
      then Some (prefix +:+ Number_toString (Math_round (temperature h)) +:+ "/"
                 +:+ Number_toString (Math_round (target h)) +:+ "°")
      else None
  | None => None
  end.

Definition bedLine (status : MoonrakerPrinterObjects) (settings : MoonrakerSettings)
  : option string :=
  heaterLine "B:" (displayBedTemp settings) (heater_bed status).

Definition hotendLine (status : MoonrakerPrinterObjects) (settings : MoonrakerSettings)
  : option string :=
  heaterLine "H:" (displayHotendTemp settings) (extruder status).

Definition progressLine (status : MoonrakerPrinterObjects) (settings : MoonrakerSettings)
  : option string :=
  match virtual_sdcard status with
  | Some sd =>
      if on (displayPrintProgress settings) && printingOrPaused status
      then
        let progressPercent := Math_round (progress sd * 100)%float in
        Some (Number_toString progressPercent +:+ "%")
      else None
  | None => None
  end.

Definition layerText (status : MoonrakerPrinterObjects) : option string :=
  let layers := print_stats status ≫= info in
  match layers ≫= current_layer, layers ≫= total_layer with
  | Some current, Some total =>
      Some ("L:" +:+ Number_toString current +:+ "/" +:+ Number_toString total)
  | _, _ =>
      ds ← display_status status;
      if truthyString (message ds) && includes (toLowerCase (message ds)) "layer"
      then '(current, total) ← matchLayer (message ds);
           Some ("L:" +:+ current +:+ "/" +:+ total)
      else None
  end.

Definition layerLine (status : MoonrakerPrinterObjects) (settings : MoonrakerSettings)
  : option string :=
  if on (displayLayerInfo settings) && printingOrPaused status
  then text ← layerText status; if truthyString text then Some text else None
  else None.

(** The lines the toggles pushed, in the order of the pushes. *)
Definition toggleLines (status : MoonrakerPrinterObjects) (settings : MoonrakerSettings)
  : list string :=
  omap id [statusLine status settings; bedLine status settings;
           hotendLine status settings; progressLine status settings;
           layerLine status settings].

Definition titleLines (status : MoonrakerPrinterObjects) (settings : MoonrakerSettings)
  : list string :=
  match toggleLines status settings with
  | [] =>
      if truthy truthyString (currentPrintState status)
      then [displayablePrintState status]
      else ["No Data"]
  | lines => lines
  end.

Definition iconFileName (status : MoonrakerPrinterObjects) : option string :=
  let st := currentPrintState status in
  if strictEq st "standby" || strictEq st "idle" then Some "icon_printer_standby.png"
  else if strictEq st "printing" then Some "icon_printer_printing.png"
  else if strictEq st "paused" then Some "icon_printer_paused.png"
  else if strictEq st "complete" then Some "icon_printer_complete.png"
  else if strictEq st "error" then Some "icon_printer_error.png"
  else None.

(** [path.join('imgs', 'actions', 'moonraker', iconFileName)], kept as its
    segments: the separator is the platform's. *)
Definition getIconRelativePath (iconFileName : string) : list string :=
  ["imgs"; "actions"; "moonraker"; iconFileName].

(** ** Effects, awaited outcomes and the exceptions of an async function *)

Inductive Effect :=
| EFetch (url : string) (headers : list (string * string))
| ESetTitle (actionId : string) (title : string)
| ESetImage (actionId : string) (image : option (list string))
| ELogError (parts : list string)
| EUncaught (reason : string).

(** How an awaited promise settles. *)
Inductive Awaited (A : Type) :=
| Resolved (a : A)
| Rejected (reason : string).
Arguments Resolved {A} a.
Arguments Rejected {A} reason.

(** How a function body ends. *)
Inductive Completion (A : Type) :=
| Returned (a : A)
| Thrown (reason : string).
Arguments Returned {A} a.
Arguments Thrown {A} reason.

(** An async body: the effects it performed, in order, and how it ended. *)
Definition Async (A : Type) : Type := list Effect * Completion A.

#[export] Instance Async_ret : MRet Async := λ A a, ([], Returned a).

#[export] Instance Async_bind : MBind Async := λ A B k m,
  match m.2 with
  | Returned a => (m.1 ++ (k a).1, (k a).2)
  | Thrown reason => (m.1, Thrown reason)
  end.

Definition emit (e : Effect) : Async () := ([e], Returned ()).

Definition throw {A : Type} (reason : string) : Async A := ([], Thrown reason).

Definition await {A : Type} (p : Awaited A) : Async A :=
  match p with
  | Resolved a => mret a
  | Rejected reason => throw reason
  end.

(** [try { body } catch (error) { handler(error.message) }] *)
Definition tryCatch {A : Type} (body : Async A) (handler : string → Async A) : Async A :=
  match body.2 with
  | Returned a => body
  | Thrown reason => (body.1 ++ (handler reason).1, (handler reason).2)
  end.

(** What reaches the host of a handler's promise: its effects, then the
    rejection if the body threw. *)
Definition hostView (m : Async ()) : list Effect :=
  match m.2 with
  | Returned _ => m.1
  | Thrown reason => m.1 ++ [EUncaught reason]
  end.

(** ** The response of [fetch] *)

(** The value [response.json()] resolves to, as far as the cast
    [{ result: { status: MoonrakerPrinterObjects } }] is concerned. *)
Inductive Decoded :=
| NoResult
| NoStatus
| Status (status : MoonrakerPrinterObjects).

Module Response.

Record t := {
  status : N;
  statusText : string;
  text : Awaited string;
  json : Awaited Decoded
}.

(** The [ok] getter: the status is in the range 200 to 299. *)
Definition ok (r : t) : bool := ((200 <=? status r) && (status r <=? 299))%N.

End Response.

(** ** The fetch cycle *)

Definition updateKeyDisplay (status : MoonrakerPrinterObjects) (actionId : string)
    (settings : MoonrakerSettings) : Async () :=
  emit (ESetTitle actionId (join nl (titleLines status settings)));;
  match iconFileName status with
  | Some file => emit (ESetImage actionId (Some (getIconRelativePath file)))
  | None => emit (ESetImage actionId None)
  end.

Definition settingsInvalidTitle : string := "Settings" +:+ nl +:+ "Invalid".
Definition settingsRequiredTitle : string := "Settings" +:+ nl +:+ "Required".
Definition fetchErrorTitle : string := "Fetch" +:+ nl +:+ "Error".
Definition httpErrorTitle (status : N) : string := "Error:" +:+ nl +:+ string_of_N status.

(** The [try] block from the point where the promise of [fetch] settles, with
    its [catch]. *)
Definition afterFetch (actionId : string) (settings : MoonrakerSettings)
    (net : Awaited Response.t) : Async () :=
  tryCatch
    (response ← await net;
     if negb (Response.ok response) then
       emit (ESetTitle actionId (httpErrorTitle (Response.status response)));;
       errorText ← await (Response.text response);
       emit (ELogError ["Action " +:+ actionId +:+ ": Moonraker API Error: "
                        +:+ string_of_N (Response.status response) +:+ " "
                        +:+ Response.statusText response +:+ " - Response: " +:+ errorText])
     else
       data ← await (Response.json response);
       match data with
       | NoResult => throw "Cannot read properties of undefined (reading 'status')"
       | NoStatus => throw "Cannot read properties of undefined (reading 'print_stats')"
       | Status status => updateKeyDisplay status actionId settings
       end)
    (λ reason,
       emit (ESetTitle actionId fetchErrorTitle);;
       emit (ELogError ["Action " +:+ actionId +:+ ": Exception during fetch or data processing:";
                        reason])).

(** The call [fetch(endpoint, { headers })] is the one statement of the [try]
    block before its promise is awaited; it cannot throw. *)
Definition fetchDataAndUpdateKey (actionId : string) (settings : MoonrakerSettings)
    (net : Awaited Response.t) : Async () :=
  if negb (isValidSettings settings) then emit (ESetTitle actionId settingsInvalidTitle)
  else
    emit (EFetch (endpoint settings) (requestHeaders settings));;
    afterFetch actionId settings net.

Definition isFetch (e : Effect) : bool :=
  match e with
  | EFetch _ _ => true
  | _ => false
  end.

Definition isLog (e : Effect) : bool :=
  match e with
  | ELogError _ => true
  | _ => false
  end.

Definition fetchCalls (effects : list Effect) : nat := length (filter isFetch effects).

(** What the key and the network see: everything but the log. *)
Definition observable (effects : list Effect) : list Effect :=
  filter (λ e, negb (isLog e)) effects.

(** The titles presented, in order. *)
Definition titles (effects : list Effect) : list string :=
  omap (λ e, match e with ESetTitle _ title => Some title | _ => None end) effects.

(** ** The scheduler *)

(** The handlers are async functions on one thread: a handler runs until it
    awaits a promise that settles in a later turn of the event loop, and other
    handlers run in between. The promise that matters is that of [fetch]: the
    cycle that issued it stays in flight until it settles ([FetchSettles]).
    Only [applySettingsAndStartPolling] touches [actionStates] after such a
    wait, when it creates the interval and stores its identity; what the
    rest of a cycle does after its response is recorded where the fetch
    settles. A [Timeout] is the identity of the object [setInterval]
    returns: each call gives a new one. *)

Definition Timeout := nat.

Record ActionState := {
  settings : MoonrakerSettings;
  timerId : option Timeout
}.

(** What runs once the cycle an async function awaits has completed. *)
Inductive Continuation :=
| Finished
| StartPolling.

(** A cycle whose [fetch] has been issued and has not settled yet. *)
Record InFlight := {
  flAction : string;
  flSettings : MoonrakerSettings;
  flThen : Continuation
}.

(** A live interval: the [actionId] its callback captured, and the delay
    argument [setInterval] was called with, in milliseconds. What the
    runtime makes of that argument is [timerPeriod]. *)
Record Interval := {
  ivAction : string;
  ivDelay : number
}.

Record World := {
  actionStates : gmap string ActionState;
  intervals : gmap Timeout Interval;
  nextTimeout : Timeout;
  inFlight : list InFlight
}.

Definition initialWorld : World :=
  {| actionStates := ∅; intervals := ∅; nextTimeout := 0%nat; inFlight := [] |}.

Definition withStates (w : World) (m : gmap string ActionState) : World :=
  {| actionStates := m; intervals := intervals w;
     nextTimeout := nextTimeout w; inFlight := inFlight w |}.

Definition withInFlight (w : World) (l : list InFlight) : World :=
  {| actionStates := actionStates w; intervals := intervals w;
     nextTimeout := nextTimeout w; inFlight := l |}.

(** [clearInterval(t)] *)
Definition clearInterval (t : Timeout) (w : World) : World :=
  {| actionStates := actionStates w; intervals := delete t (intervals w);
     nextTimeout := nextTimeout w; inFlight := inFlight w |}.

(** [setInterval(callback, delay)]: a fresh identity, live from now on. *)
Definition setInterval (actionId : string) (delay : number) (w : World) : Timeout * World :=
  (nextTimeout w,
   {| actionStates := actionStates w;
      intervals := <[nextTimeout w := {| ivAction := actionId; ivDelay := delay |}]> (intervals w);
      nextTimeout := S (nextTimeout w); inFlight := inFlight w |}).

(** The period Node runs a timer with, in whole milliseconds: a delay
    argument that is not a number from 1 to [TIMEOUT_MAX] (one that is too
    small, too large, infinite or not a number) counts as 1, and of any
    other the fraction is dropped. The comparisons are made on the exact
    value [n / d] of the argument. *)
Definition TIMEOUT_MAX : Z := 2 ^ 31 - 1.

Definition timerPeriod (after : number) : Z :=
  match Prim2SF after with
  | S754_finite false m e =>
      let n := Z.pos m * 2 ^ Z.max e 0 in
      let d := 2 ^ Z.max (- e) 0 in
      if (d <=? n) && (n <=? TIMEOUT_MAX * d) then n / d else 1
  | _ => 1
  end.


Definition stopPollingForAction (actionId : string) (w : World) : World :=
  match actionStates w !! actionId with
  | Some st =>
      match timerId st with
      | Some t =>
          withStates (clearInterval t w)
            (<[actionId := {| settings := settings st; timerId := None |}]> (actionStates w))
      | None => w
      end
  | None => w
  end.

(** The tail of [applySettingsAndStartPolling], after the initial fetch. *)
Definition startPolling (actionId : string) (s : MoonrakerSettings) (w : World)
  : World * list Effect :=
  let intervalSeconds :=
    match pollingInterval s with
    | Some x => if truthyNumber x then x else 5%float
    | None => 5%float
    end in
  let '(t, w) := setInterval actionId (intervalSeconds * 1000)%float w in
  match actionStates w !! actionId with
  | Some st =>
      (withStates w (<[actionId := {| settings := settings st; timerId := Some t |}]>
                       (actionStates w)), [])
  | None => (w, [EUncaught "Cannot set properties of undefined (setting 'timerId')"])
  end.

Definition resume (k : Continuation) (actionId : string) (s : MoonrakerSettings) (w : World)
  : World * list Effect :=
  match k with
  | Finished => (w, [])
  | StartPolling => startPolling actionId s w
  end.

(** A call of [fetchDataAndUpdateKey] up to its first suspension: with valid
    settings the request is issued and the call waits in flight; otherwise it
    presents the placeholder and its caller goes on. *)
Definition beginCycle (actionId : string) (s : MoonrakerSettings) (k : Continuation)
    (w : World) : World * list Effect :=
  if isValidSettings s then
    (withInFlight w (inFlight w ++ [{| flAction := actionId; flSettings := s; flThen := k |}]),
     [EFetch (endpoint s) (requestHeaders s)])
  else
    let '(w, effects) := resume k actionId s w in
    (w, ESetTitle actionId settingsInvalidTitle :: effects).

(** The promise of an in-flight [fetch] settles: the rest of the cycle runs,
    then what awaited it. *)
Definition settleCycle (i : nat) (net : Awaited Response.t) (w : World)
  : World * list Effect :=
  match inFlight w !! i with
  | Some f =>
      let w := withInFlight w (delete i (inFlight w)) in
      let rest := afterFetch (flAction f) (flSettings f) net in
      match rest.2 with
      | Returned _ =>
          let '(w, effects) := resume (flThen f) (flAction f) (flSettings f) w in
          (w, rest.1 ++ effects)
      | Thrown reason => (w, rest.1 ++ [EUncaught reason])
      end
  | None => (w, [])
  end.

Definition applySettingsAndStartPolling (actionId : string) (s : MoonrakerSettings)
    (w : World) : World * list Effect :=
  let w := stopPollingForAction actionId w in
  if isValidSettings s then beginCycle actionId s StartPolling w
  else (w, [ESetTitle actionId settingsRequiredTitle]).

Definition onWillAppear (actionId : string) (payload : option MoonrakerSettings)
    (w : World) : World * list Effect :=
  let s := default emptySettings payload in
  let w := withStates w (<[actionId := {| settings := s; timerId := None |}]> (actionStates w)) in
  applySettingsAndStartPolling actionId s w.

Definition onWillDisappear (actionId : string) (w : World) : World * list Effect :=
  let w := stopPollingForAction actionId w in
  (withStates w (delete actionId (actionStates w)), []).

Definition onDidReceiveSettings (actionId : string) (newSettings : MoonrakerSettings)
    (w : World) : World * list Effect :=
  let w :=
    match actionStates w !! actionId with
    | Some currentState =>
        withStates w (<[actionId := {| settings := newSettings;
                                       timerId := timerId currentState |}]> (actionStates w))
    | None =>
        withStates w (<[actionId := {| settings := newSettings; timerId := None |}]>
                        (actionStates w))
    end in
  applySettingsAndStartPolling actionId newSettings w.

Definition onKeyDown (actionId : string) (w : World) : World * list Effect :=
  match actionStates w !! actionId with
  | Some st => beginCycle actionId (settings st) Finished w
  | None => (w, [])
  end.

(** The callback handed to [setInterval]; it captured [actionId] and its own
    [timerId]. *)
Definition intervalCallback (actionId : string) (t : Timeout) (w : World)
  : World * list Effect :=
  match actionStates w !! actionId with
  | Some currentActionState =>
      if decide (timerId currentActionState = Some t)
      then beginCycle actionId (settings currentActionState) Finished w
      else (w, [])
  | None => (w, [])
  end.

Inductive Event :=
| WillAppear (actionId : string) (payload : option MoonrakerSettings)
| WillDisappear (actionId : string)
| DidReceiveSettings (actionId : string) (newSettings : MoonrakerSettings)
| KeyDown (actionId : string)
| TimerFires (t : Timeout)
| FetchSettles (i : nat) (net : Awaited Response.t).

(** One turn of the event loop. Only a live interval fires. *)
Definition step (w : World) (ev : Event) : World * list Effect :=
  match ev with
  | WillAppear actionId payload => onWillAppear actionId payload w
  | WillDisappear actionId => onWillDisappear actionId w
  | DidReceiveSettings actionId newSettings => onDidReceiveSettings actionId newSettings w
  | KeyDown actionId => onKeyDown actionId w
  | TimerFires t =>
      match intervals w !! t with
      | Some iv => intervalCallback (ivAction iv) t w
      | None => (w, [])
      end
  | FetchSettles i net => settleCycle i net w
  end.

Fixpoint run (w : World) (evs : list Event) : World * list Effect :=
  match evs with
  | [] => (w, [])
  | ev :: evs =>
      let '(w1, e1) := step w ev in
      let '(w2, e2) := run w1 evs in
      (w2, e1 ++ e2)
  end.

(** The timer stored for an instance, if the instance has a record and the
    record a timer. *)
Definition storedTimer (w : World) (actionId : string) : option Timeout :=
  actionStates w !! actionId ≫= timerId.

(** The live intervals whose callback belongs to an instance. *)
Definition liveTimers (w : World) (actionId : string) : gset Timeout :=
  dom (filter (λ p, ivAction p.2 = actionId) (intervals w)).

(** ** Vocabulary of the scheduler's properties *)

(** A timer is stale for an instance when it is not the timer stored in the
    instance's record: another one is, or none, or there is no record. *)
Definition stale (w : World) (actionId : string) (t : Timeout) : Prop :=
  storedTimer w actionId ≠ Some t.

(** From [w] to [w'] no identity is reused, and a timer stored for the
    instance in [w'] was stored in [w] already or was created since. *)
Definition frame (actionId : string) (w w' : World) : Prop :=
  (nextTimeout w <= nextTimeout w')%nat
  ∧ ∀ t, storedTimer w' actionId = Some t →
         storedTimer w actionId = Some t ∨ (nextTimeout w <= t)%nat.

(** Every timer stored for the instance was created at [n] or later. *)
Definition storedSince (n : Timeout) (actionId : string) (w : World) : Prop :=
  (n <= nextTimeout w)%nat
  ∧ ∀ t, storedTimer w actionId = Some t → (n <= t)%nat.

(** Every timer stored in a record is a live interval whose callback belongs
    to that instance, and the identities in use lie below the next one. *)
Definition wellFormed (w : World) : Prop :=
  (∀ t iv, intervals w !! t = Some iv → (t < nextTimeout w)%nat)
  ∧ (∀ actionId t, storedTimer w actionId = Some t →
       ∃ iv, intervals w !! t = Some iv ∧ ivAction iv = actionId).

(** From [w] to [w'] nothing of the instance changed: its record is the
    same, and so are the live intervals whose callback belongs to it. *)
Definition sameFor (actionId : string) (w w' : World) : Prop :=
  actionStates w' !! actionId = actionStates w !! actionId
  ∧ ∀ t iv, ivAction iv = actionId →
            (intervals w' !! t = Some iv ↔ intervals w !! t = Some iv).

(** The instance an event is about: for a tick the one its callback
    captured, for a settling fetch the one that issued it. *)
Definition eventAction (w : World) (ev : Event) : option string :=
  match ev with
  | WillAppear actionId _ | WillDisappear actionId
  | DidReceiveSettings actionId _ | KeyDown actionId => Some actionId
  | TimerFires t => ivAction <$> intervals w !! t
  | FetchSettles i _ => flAction <$> inFlight w !! i
  end.


(** The event is the settling of a fetch. *)
Definition settles (ev : Event) : bool :=
  match ev with
  | FetchSettles _ _ => true
  | _ => false
  end.

(** The effects that paint a key name this instance. *)
Definition paintsOnly (actionId : string) (e : Effect) : Prop :=
  match e with
  | ESetTitle a _ | ESetImage a _ => a = actionId
  | EFetch _ _ | ELogError _ | EUncaught _ => True
  end.

Fixpoint digitsOnly (s : string) : bool :=
  match s with
  | EmptyString => true
  | String c r => isDigit c && digitsOnly r
  end.

Fixpoint spacesOnly (s : string) : bool :=
  match s with
  | EmptyString => true
  | String c r => isSpace c && spacesOnly r
  end.

Definition startsWithDigit (s : string) : bool :=
  match s with
  | EmptyString => false
  | String c _ => isDigit c
  end.

(** A printing snapshot that tells its layers by the status message only. *)
Definition layersByMessage (message : string) : MoonrakerPrinterObjects :=
  {| heater_bed := None; extruder := None;
     print_stats := Some {| state := "printing"; filename := None; info := None |};
     virtual_sdcard := None;
     display_status := Some {| message := message |} |}.

(** The snapshot with another text as the state of its [print_stats]. *)
Definition withState (status : MoonrakerPrinterObjects) (st : string)
  : MoonrakerPrinterObjects :=
  {| heater_bed := heater_bed status; extruder := extruder status;
     print_stats :=
       (λ ps, {| state := st; filename := filename ps; info := info ps |})
       <$> print_stats status;
     virtual_sdcard := virtual_sdcard status;
     display_status := display_status status |}.

(** The image a render sets: the icon of the state, or the default. *)
Definition renderedImage (status : MoonrakerPrinterObjects) : option (list string) :=
  getIconRelativePath <$> iconFileName status.

(** ** Sample inputs *)

Set Warnings "-inexact-float".

(** Settings with the five toggles on, the rest as given. *)
Definition allTogglesOn (base port key : option string) (interval : option number)
  : MoonrakerSettings :=
  {| baseUrl := base; port := port; apiKey := key; pollingInterval := interval;
     displayBedTemp := Some true; displayHotendTemp := Some true;
     displayPrintStatus := Some true; displayPrintProgress := Some true;
     displayLayerInfo := Some true |}.

(** Settings with no toggle on. *)
Definition noToggles (base port key : option string) (interval : option number)
  : MoonrakerSettings :=
  {| baseUrl := base; port := port; apiKey := key; pollingInterval := interval;
     displayBedTemp := None; displayHotendTemp := None; displayPrintStatus := None;
     displayPrintProgress := None; displayLayerInfo := None |}.

Definition sampleSettings : MoonrakerSettings :=
  allTogglesOn (Some "mainsailos.local/") (Some "7125") (Some "secret") (Some 5%float).

Definition otherSettings : MoonrakerSettings :=
  allTogglesOn (Some "https://fluidd.local") None None (Some 2%float).

Definition noStatus : MoonrakerPrinterObjects :=
  {| heater_bed := None; extruder := None; print_stats := None;
     virtual_sdcard := None; display_status := None |}.

Definition roundTripSnapshot : MoonrakerPrinterObjects :=
  {| heater_bed := Some {| temperature := 59.6%float; target := 60%float |};
     extruder := Some {| temperature := 204.4%float; target := 205%float |};
     print_stats :=
       Some {| state := "printing"; filename := None;
               info := Some {| current_layer := Some 12%float;
                               total_layer := Some 100%float |} |};
     virtual_sdcard := Some {| progress := 0.12%float |};
     display_status := None |}.

(** A snapshot whose state is there and is the empty string. *)
Definition emptyStateSnapshot : MoonrakerPrinterObjects :=
  {| heater_bed := None; extruder := None;
     print_stats := Some {| state := ""; filename := None; info := None |};
     virtual_sdcard := None; display_status := None |}.

Definition completeSnapshot : MoonrakerPrinterObjects :=
  {| heater_bed := None; extruder := None;
     print_stats := Some {| state := "complete"; filename := None; info := None |};
     virtual_sdcard := None; display_status := None |}.

Definition standbySnapshot : MoonrakerPrinterObjects :=
  {| heater_bed := None; extruder := None;
     print_stats := Some {| state := "standby"; filename := None; info := None |};
     virtual_sdcard := None; display_status := None |}.

(** A paused print whose layers are only told by the status message. *)
Definition messageSnapshot : MoonrakerPrinterObjects :=
  {| heater_bed := None; extruder := None;
     print_stats := Some {| state := "Paused"; filename := None;
                            info := Some {| current_layer := Some 3%float;
                                            total_layer := None |} |};
     virtual_sdcard := Some {| progress := 0.285%float |};
     display_status := Some {| message := "Printing LAYER 7 /  40" |} |}.

Definition onlyStatus : MoonrakerSettings :=
  {| baseUrl := Some "http://192.168.1.100"; port := None; apiKey := None;
     pollingInterval := Some 5%float;
     displayBedTemp := Some false; displayHotendTemp := None;
     displayPrintStatus := Some true; displayPrintProgress := None;
     displayLayerInfo := None |}.

Definition response (status : N) (statusText : string) (text : Awaited string)
    (json : Awaited Decoded) : Response.t :=
  {| Response.status := status; Response.statusText := statusText;
     Response.text := text; Response.json := json |}.

Definition okResponse : Awaited Response.t :=
  Resolved (response 200 "OK" (Resolved "") (Resolved (Status roundTripSnapshot))).

Definition unauthorized : Response.t :=
  response 401 "Unauthorized" (Resolved "{error: Unauthorized}") (Rejected "").

(** An instance that appeared with valid settings and whose initial fetch has
    settled: it polls on timer 0. *)
Definition polledWorld : World :=
  (run initialWorld [WillAppear "key" (Some sampleSettings); FetchSettles 0 okResponse]).1.

(** The events that lead to [polledWorld], and then a second instance. *)
Definition polledEvents : list Event :=
  [WillAppear "key" (Some sampleSettings); FetchSettles 0 okResponse].

Definition twoKeysEvents : list Event :=
  polledEvents ++ [WillAppear "other" (Some otherSettings); FetchSettles 0 okResponse].

(** Two settings changes, the second one handled while the initial fetch of
    the first is in flight; then the first fetch settles. *)
Definition overlappingChanges : list Event :=
  [DidReceiveSettings "key" otherSettings; DidReceiveSettings "key" sampleSettings;
   FetchSettles 0 okResponse].

(** The instance appears again while its record is there. *)
Definition secondAppearance : list Event :=
  [WillAppear "key" (Some sampleSettings); FetchSettles 0 okResponse].

(** * Properties *)

(** ** The embedding on concrete inputs *)

Example Number_toString_samples :
  map Number_toString
      [12; 100; 0.5; 12.5; 59.6; 0.1 + 0.2; 0.07 * 100; 1e21; 1e20; 1e-7; 0.000001;
       -1.5; 5e-324; 1.7976931348623157e308; -0; nan; infinity; neg_infinity]%float
  = ["12"; "100"; "0.5"; "12.5"; "59.6"; "0.30000000000000004"; "7.000000000000001";
     "1e+21"; "100000000000000000000"; "1e-7"; "0.000001"; "-1.5"; "5e-324";
     "1.7976931348623157e+308"; "0"; "NaN"; "Infinity"; "-Infinity"].
Proof. vm_compute. reflexivity. Qed.

(** On integers below [2^53] the shortest digit string is the numeral. *)
Example integer_numerals :
  map (λ x, match Prim2SF x with
            | S754_finite sg m e => shortestDigits sg m e
            | _ => ""
            end)
      [1; 7; 10; 12; 60; 100; 204; 5000; 123456789; -25; 1e15; 4503599627370496;
       9007199254740991; -9007199254740990]%float
  = map Number_toString
      [1; 7; 10; 12; 60; 100; 204; 5000; 123456789; -25; 1e15; 4503599627370496;
       9007199254740991; -9007199254740990]%float
  ∧ map Number_toString [1; 10; 123456789; -25; 9007199254740991]%float
    = ["1"; "10"; "123456789"; "-25"; "9007199254740991"].
Proof. split; vm_compute; reflexivity. Qed.

Example Math_round_samples :
  map (λ x, Number_toString (Math_round x))
      [59.6; 204.4; 0.12 * 100; 0.285 * 100; 0.5; 0.49999999999999994; 2.5; -2.5;
       -0.5; -0.51; 1e300; 4503599627370495.5; nan]%float
  = ["60"; "204"; "12"; "28"; "1"; "0"; "3"; "-2"; "0"; "-1"; "1e+300";
     "4503599627370496"; "NaN"].
Proof. vm_compute. reflexivity. Qed.

(** The product is the binary64 product, rounded before [Math.round] sees
    it: 0.015 * 100 is 1.5 and 0.285 * 100 is just below 28.5. *)
Example progress_product_samples :
  map (λ fraction, Number_toString (Math_round (fraction * 100)))
      [0; 0.004; 0.005; 0.015; 0.285; 0.5; 0.995; 0.9999; 1]%float
  = ["0"; "0"; "1"; "2"; "28"; "50"; "100"; "100"; "100"].
Proof. vm_compute. reflexivity. Qed.

Example Math_round_negative_zero : Prim2SF (Math_round (-0.3)%float) = S754_zero true.
Proof. vm_compute. reflexivity. Qed.

Example string_samples :
  slice "http://host/" 0 (Some (-1)) = "http://host"
  ∧ slice "printing" 1 None = "rinting"
  ∧ slice "" 1 None = "" ∧ charAt "" 0 = "" ∧ toUpperCase (charAt "printing" 0) = "P"
  ∧ endsWith "http://host/" "/" = true ∧ endsWith "" "/" = false
  ∧ toLowerCase "PrInTiNg" = "printing"
  ∧ includes "now at layer 3" "layer" = true ∧ includes "lay er" "layer" = false.
Proof. repeat split. Qed.

Example timerPeriod_samples :
  map timerPeriod
      [5 * 1000; 3000000 * 1000; 0.0001 * 1000; 1.5007 * 1000; 2147483647;
       2147483647.5; 2147483648; -3; 0; nan; infinity]%float
  = [5000; 1; 1; 1500; 2147483647; 1; 1; 1; 1; 1; 1].
Proof. vm_compute. reflexivity. Qed.

(** White space between the parts of the pattern: a no-break space (U+00A0),
    an ideographic space (U+3000), a thin space (U+2009), a byte order mark
    (U+FEFF) and a line separator (U+2028) are skipped; a dash (U+2014) and
    a zero width space (U+200B) are not white space. *)
Example matchLayer_white_space :
  matchLayer ("Layer" +:+ bytes [194; 160] +:+ "3/4") = Some ("3", "4")
  ∧ matchLayer ("layer" +:+ bytes [227; 128; 128] +:+ "3" +:+ bytes [226; 128; 137]
                +:+ "/" +:+ bytes [239; 187; 191; 226; 128; 168; 32] +:+ "40")
    = Some ("3", "40")
  ∧ matchLayer ("Layer" +:+ bytes [226; 128; 148] +:+ "3/4") = None
  ∧ matchLayer ("Layer" +:+ bytes [226; 128; 139] +:+ "3/4") = None
  ∧ matchLayer ("Layer" +:+ bytes [194; 161] +:+ "3/4") = None.
Proof. repeat split. Qed.

Example matchLayer_samples :
  matchLayer "Printing LAYER  12 / 340 now" = Some ("12", "340")
  ∧ matchLayer "layer x Layer3/4" = Some ("3", "4")
  ∧ matchLayer "layer 1 2/3" = None
  ∧ matchLayer "Layer /3" = None.
Proof. repeat split. Qed.

Example endpoint_samples :
  endpoint sampleSettings
  = "http://mainsailos.local:7125/printer/objects/query?print_stats&heater_bed&extruder&display_status&virtual_sdcard"
  ∧ requestHeaders sampleSettings
    = [("Content-Type", "application/json"); ("X-Api-Key", "secret")]
  ∧ endpoint otherSettings
    = "https://fluidd.local/printer/objects/query?print_stats&heater_bed&extruder&display_status&virtual_sdcard"
  ∧ requestHeaders otherSettings = [("Content-Type", "application/json")].
Proof. repeat split. Qed.

Example reducer_samples :
  titleLines standbySnapshot onlyStatus = ["Idle"]
  ∧ iconFileName standbySnapshot = Some "icon_printer_standby.png"
  ∧ titleLines completeSnapshot (noToggles None None None None) = ["Complete"]
  ∧ titleLines noStatus (noToggles None None None None) = ["No Data"]
  ∧ iconFileName noStatus = None
  ∧ titleLines messageSnapshot (allTogglesOn None None None None)
    = ["Paused"; "28%"; "L:7/40"].
Proof. repeat split; vm_compute; reflexivity. Qed.

(** An instance appears, its initial fetch settles, its timer ticks, the
    instance disappears: the interval is cancelled and the record gone. *)
Example lifecycle_sample :
  storedTimer polledWorld "key" = Some 0%nat
  ∧ elements (liveTimers polledWorld "key") = [0%nat]
  ∧ fetchCalls (step polledWorld (TimerFires 0%nat)).2 = 1%nat
  ∧ fetchCalls (step polledWorld (KeyDown "key")).2 = 1%nat
  ∧ elements (liveTimers (step polledWorld (WillDisappear "key")).1 "key") = []
  ∧ actionStates (step polledWorld (WillDisappear "key")).1 !! "key" = None
  ∧ (step (step polledWorld (WillDisappear "key")).1 (TimerFires 0%nat)).2 = [].
Proof. repeat split; vm_compute; reflexivity. Qed.

(** ** Strings *)

Section StringFacts.

Implicit Types s p b c : string.

Lemma length_append b c : String.length (b +:+ c) = (String.length b + String.length c)%nat.
Proof. induction b as [|a b IH]; simpl; [done | by rewrite IH]. Qed.

Lemma substring_head b c : String.substring 0 (String.length b) (b +:+ c) = b.
Proof.
  induction b as [|a b IH]; simpl.
  - by destruct c.
  - by rewrite IH.
Qed.

Lemma substring_all c : String.substring 0 (String.length c) c = c.
Proof. induction c as [|a c IH]; simpl; [done | by rewrite IH]. Qed.

Lemma substring_tail b c :
  String.substring (String.length b) (String.length c) (b +:+ c) = c.
Proof. induction b as [|a b IH]; simpl; [apply substring_all | done]. Qed.

Lemma substring_split n s :
  (n <= String.length s)%nat →
  s = String.substring 0 n s +:+ String.substring n (String.length s - n) s.
Proof.
  revert n. induction s as [|a s IH]; intros [|n] Hn; simpl in *; try lia.
  - done.
  - by rewrite substring_all.
  - change (String a s
            = String a (String.substring 0 n s
                        +:+ String.substring n (String.length s - n) s)).
    f_equal. apply IH. lia.
Qed.

Lemma prefix_append p s : String.prefix p (p +:+ s) = true.
Proof.
  induction p as [|a p IH]; simpl; [by destruct s|].
  destruct (ascii_dec a a); [done | congruence].
Qed.

Lemma prefix_inv p s : String.prefix p s = true → ∃ r, s = p +:+ r.
Proof.
  revert s. induction p as [|a p IH]; intros s H.
  - by exists s.
  - destruct s as [|b s]; simpl in H; [done|].
    destruct (ascii_dec a b) as [->|]; [|done].
    destruct (IH s H) as [r ->]. by exists r.
Qed.

Lemma startsWith_iff s p : startsWith s p = true ↔ ∃ r, s = p +:+ r.
Proof.
  split; [apply prefix_inv|]. intros [r ->]. apply prefix_append.
Qed.

Lemma endsWith_append b p : endsWith (b +:+ p) p = true.
Proof.
  unfold endsWith. rewrite length_append.
  destruct (Nat.leb_spec (String.length p) (String.length b + String.length p)); [|lia].
  replace (String.length b + String.length p - String.length p)%nat
    with (String.length b) by lia.
  rewrite substring_tail. apply String.eqb_refl.
Qed.

Lemma endsWith_inv s p : endsWith s p = true → ∃ b, s = b +:+ p.
Proof.
  unfold endsWith.
  destruct (Nat.leb_spec (String.length p) (String.length s)) as [Hle|]; [|done].
  intros H%String.eqb_eq.
  exists (String.substring 0 (String.length s - String.length p) s).
  rewrite (substring_split (String.length s - String.length p) s) at 1 by lia.
  f_equal. rewrite <- H at 3. f_equal. lia.
Qed.

Lemma endsWith_iff s p : endsWith s p = true ↔ ∃ b, s = b +:+ p.
Proof.
  split; [apply endsWith_inv|]. intros [b ->]. apply endsWith_append.
Qed.

(** [(b + "/").slice(0, -1)] is [b]: one character goes, whatever [b] ends in. *)
Lemma slice_drop_last b c :
  String.length c = 1%nat → slice (b +:+ c) 0 (Some (-1)) = b.
Proof.
  intros Hc. unfold slice, clampIndex. rewrite length_append, Hc. simpl.
  replace (Z.to_nat (Z.min 0 _)) with 0%nat by lia.
  replace (Z.to_nat _) with (String.length b) by lia.
  apply substring_head.
Qed.

Lemma truthyString_iff s : truthyString s = true ↔ s ≠ "".
Proof. by destruct s. Qed.

Lemma strictEq_iff (o : option string) s : strictEq o s = true ↔ o = Some s.
Proof.
  destruct o as [x|]; simpl; [|done].
  rewrite String.eqb_eq. split; congruence.
Qed.

End StringFacts.

(** ** Numbers *)

Lemma Prim2SF_zero : Prim2SF 0%float = S754_zero false.
Proof. reflexivity. Qed.

(** A number above zero is truthy: the middle conjunct of [isValidSettings]
    follows from the last. *)
Lemma gt_zero_truthy (x : number) : gt x 0%float = true → truthyNumber x = true.
Proof.
  unfold gt, truthyNumber. rewrite Prim2SF_zero.
  by destruct (Prim2SF x) as [[]|[]| |[] m e].
Qed.

(** Above zero: plus infinity, or finite with the sign bit clear. *)
Lemma gt_zero_iff (x : number) :
  gt x 0%float = true ↔
  Prim2SF x = S754_infinity false ∨ ∃ m e, Prim2SF x = S754_finite false m e.
Proof.
  unfold gt. rewrite Prim2SF_zero.
  destruct (Prim2SF x) as [[]|[]| |[] m e]; simpl; split; try done;
    try (intros [|(? & ? & ?)]; done); eauto.
Qed.

(** [roundHalfUp] is the nearest integer, a tie going up:
    [r - 1/2 <= x < r + 1/2] scaled by [2 * 2^(-e)], for [x = ±m * 2^e]. *)
Lemma roundHalfUp_nearest (s : bool) (m : positive) (e : Z) :
  e < 0 →
  let r := roundHalfUp s m e in
  2 ^ (1 - e) * r - 2 ^ (- e) <= 2 * signed s (Z.pos m) < 2 ^ (1 - e) * r + 2 ^ (- e).
Proof.
  intros He r. subst r. unfold roundHalfUp.
  set (a := 2 * signed s (Z.pos m) + 2 ^ (- e)).
  assert (Hpos : 0 < 2 ^ (1 - e)) by (apply Z.pow_pos_nonneg; lia).
  assert (Hdbl : 2 ^ (1 - e) = 2 * 2 ^ (- e)).
  { replace (1 - e) with (Z.succ (- e)) by lia. apply Z.pow_succ_r. lia. }
  pose proof (Z.mul_div_le a _ Hpos).
  pose proof (Z.mul_succ_div_gt a _ Hpos).
  lia.
Qed.

(** The number of binary digits of [p]: [2^(d-1) <= p < 2^d]. *)
Lemma digits2_pos_bounds (p : positive) :
  2 ^ (Z.pos (digits2_pos p) - 1) <= Z.pos p < 2 ^ Z.pos (digits2_pos p).
Proof.
  induction p as [p IH|p IH|]; simpl digits2_pos; [| |simpl; lia].
  all: rewrite Pos2Z.inj_succ;
    replace (Z.succ (Z.pos (digits2_pos p)) - 1) with (Z.succ (Z.pos (digits2_pos p) - 1)) by lia;
    rewrite !Z.pow_succ_r by lia; lia.
Qed.

Lemma shiftLeft_value (p : positive) (n : nat) :
  Z.pos (shiftLeft p n) = Z.pos p * 2 ^ Z.of_nat n.
Proof.
  revert p. induction n as [|n IH]; intros p.
  - simpl. lia.
  - cbn [shiftLeft]. rewrite IH, Nat2Z.inj_succ, Z.pow_succ_r by lia. lia.
Qed.

Lemma shiftLeft_digits (p : positive) (n : nat) :
  Z.pos (digits2_pos (shiftLeft p n)) = Z.pos (digits2_pos p) + Z.of_nat n.
Proof.
  revert p. induction n as [|n IH]; intros p.
  - simpl. lia.
  - cbn [shiftLeft]. rewrite IH. simpl digits2_pos. lia.
Qed.

(** The significand of a number has at most 53 bits. *)
Lemma significand_bound (x : number) s m e :
  Prim2SF x = S754_finite s m e → Z.pos m < 2 ^ 53.
Proof.
  intros Hx. pose proof (Prim2SF_valid x) as Hv. rewrite Hx in Hv.
  apply andb_true_iff in Hv as [Hc%Z.eqb_eq _].
  unfold fexp, FloatOps.prec in Hc.
  pose proof (digits2_pos_bounds m) as [_ Hd].
  eapply Z.lt_le_trans; [exact Hd|]. apply Z.pow_le_mono_r; lia.
Qed.

(** An integer of up to 53 bits is a number: [integerSF] is in normal form. *)
Lemma integerSF_valid (s : bool) (p : positive) :
  Z.pos p <= 2 ^ 52 → Prim2SF (SF2Prim (integerSF s p)) = integerSF s p.
Proof.
  intros Hp. apply Prim2SF_SF2Prim.
  pose proof (digits2_pos_bounds p) as [Hd _].
  assert (Z.pos (digits2_pos p) <= 53).
  { destruct (Z.le_gt_cases (Z.pos (digits2_pos p)) 53) as [|Hgt]; [done|].
    assert (2 ^ 53 <= 2 ^ (Z.pos (digits2_pos p) - 1)) by (apply Z.pow_le_mono_r; lia).
    lia. }
  unfold integerSF, SpecFloat.valid_binary, bounded, canonical_mantissa.
  rewrite shiftLeft_digits. unfold fexp, emin, FloatOps.prec, FloatOps.emax.
  apply andb_true_iff. split; [apply Z.eqb_eq | apply Z.leb_le]; lia.
Qed.

Lemma integerSF_value (s : bool) (p : positive) :
  Z.pos p <= 2 ^ 52 →
  ∃ m e, integerSF s p = S754_finite s m e
         ∧ Z.pos m * 2 ^ Z.max e 0 = Z.pos p * 2 ^ Z.max (- e) 0.
Proof.
  intros Hp. pose proof (digits2_pos_bounds p) as [Hd _].
  assert (Z.pos (digits2_pos p) <= 53).
  { destruct (Z.le_gt_cases (Z.pos (digits2_pos p)) 53) as [|Hgt]; [done|].
    assert (2 ^ 53 <= 2 ^ (Z.pos (digits2_pos p) - 1)) by (apply Z.pow_le_mono_r; lia).
    lia. }
  eexists _, _. split; [reflexivity|].
  rewrite shiftLeft_value.
  rewrite Z.max_r by lia. rewrite Z.max_l by lia.
  rewrite Z.pow_0_r, Z.mul_1_r. do 2 f_equal. lia.
Qed.

(** A number that is an integer below [2^53] prints as its decimal numeral. *)
Lemma Number_toString_integer (y : number) s m e (p : Z) :
  Prim2SF y = S754_finite s m e →
  Z.pos m * 2 ^ Z.max e 0 = p * 2 ^ Z.max (- e) 0 →
  p < 2 ^ 53 →
  Number_toString y = decimal (signed s p).
Proof.
  intros Hy Hval Hp. unfold Number_toString. rewrite Hy.
  unfold integerValue. rewrite Hval.
  assert (0 < 2 ^ Z.max (- e) 0) by (apply Z.pow_pos_nonneg; lia).
  rewrite Z.mod_mul, Z.div_mul by lia. simpl.
  by rewrite (proj2 (Z.ltb_lt _ _) Hp).
Qed.

(** Below a significand of 53 bits and above a denominator of 2, the nearest
    integer has the sign of the number and at most 53 bits. *)
Lemma roundHalfUp_bounds (s : bool) (m : positive) (e : Z) :
  e < 0 → Z.pos m < 2 ^ 53 →
  let r := roundHalfUp s m e in
  signed s (Z.abs r) = r ∧ Z.abs r <= 2 ^ 52.
Proof.
  intros He Hm r. pose proof (roundHalfUp_nearest s m e He) as Hr.
  fold r in Hr. simpl in Hr.
  assert (Hdbl : 2 ^ (1 - e) = 2 * 2 ^ (- e)).
  { replace (1 - e) with (Z.succ (- e)) by lia. apply Z.pow_succ_r. lia. }
  assert (Hd : 2 <= 2 ^ (- e)).
  { change 2 with (2 ^ 1) at 1. apply Z.pow_le_mono_r; lia. }
  rewrite Hdbl in Hr. set (d := 2 ^ (- e)) in *. clearbody d r.
  change (2 ^ 53) with 9007199254740992 in Hm.
  change (2 ^ 52) with 4503599627370496.
  destruct s; simpl in *; split; nia.
Qed.

(** [Math.round] followed by printing gives the numeral of the nearest
    integer. *)
Lemma Math_round_prints (x : number) :
  printsNearestInteger x (Number_toString (Math_round x)).
Proof.
  unfold printsNearestInteger, Math_round.
  destruct (Prim2SF x) as [z|i| |s m e] eqn:Hx.
  - unfold Number_toString. by rewrite Hx.
  - unfold Number_toString. by rewrite Hx.
  - unfold Number_toString. by rewrite Hx.
  - pose proof (significand_bound x s m e Hx) as Hm.
    destruct (0 <=? e) eqn:He.
    + apply Z.leb_le in He.
      exists (signed s (Z.pos m) * 2 ^ e).
      assert (0 < 2 ^ e) by (apply Z.pow_pos_nonneg; lia).
      unfold nearestInteger. rewrite Z.max_r, Z.max_l by lia.
      rewrite Z.pow_0_r. split; [lia|]. split; [|done].
      intros Hr.
      replace (signed s (Z.pos m) * 2 ^ e) with (signed s (Z.pos m * 2 ^ e))
        in * by (destruct s; simpl; lia).
      apply (Number_toString_integer x s m e); [done| |].
      * rewrite Z.max_l, Z.max_r by lia. rewrite Z.pow_0_r. lia.
      * destruct s; simpl in Hr; lia.
    + apply Z.leb_gt in He.
      pose proof (roundHalfUp_nearest s m e He) as Hnear.
      pose proof (roundHalfUp_bounds s m e He Hm) as [Hsign Hle].
      simpl in Hnear, Hsign, Hle.
      assert (Hdbl : 2 ^ (1 - e) = 2 * 2 ^ (- e)).
      { replace (1 - e) with (Z.succ (- e)) by lia. apply Z.pow_succ_r. lia. }
      exists (roundHalfUp s m e).
      split; [|split].
      * unfold nearestInteger. rewrite Z.max_l, Z.max_r by lia.
        rewrite Z.pow_0_r. lia.
      * intros _. cbv zeta.
        destruct (roundHalfUp s m e =? 0) eqn:Hz.
        -- apply Z.eqb_eq in Hz. rewrite Hz. by destruct s.
        -- apply Z.eqb_neq in Hz.
           set (r := roundHalfUp s m e) in *.
           assert (Hp : Z.pos (Z.to_pos (Z.abs r)) = Z.abs r) by (apply Z2Pos.id; lia).
           destruct (integerSF_value s (Z.to_pos (Z.abs r))) as (m' & e' & Hsf & Hval);
             [lia|].
           transitivity (decimal (signed s (Z.abs r))); [|by rewrite Hsign].
           apply (Number_toString_integer _ s m' e'); [| |lia].
           ++ rewrite integerSF_valid by lia. done.
           ++ by rewrite Hval, Hp.
      * intros Hbig. change (2 ^ 52) with 4503599627370496 in Hle.
        change (2 ^ 53) with 9007199254740992 in Hbig. lia.
Qed.

(** ** Display reducer *)

Lemma toLowerCase_empty (x : string) : toLowerCase x = "" ↔ x = "".
Proof. by destruct x. Qed.

Lemma titleLines_nonempty (status : MoonrakerPrinterObjects) (s : MoonrakerSettings) :
  (0 < length (titleLines status s))%nat.
Proof.
  unfold titleLines. destruct (toggleLines status s); simpl; [|lia].
  destruct (truthy _ _); simpl; lia.
Qed.

Lemma printingOrPaused_iff (status : MoonrakerPrinterObjects) :
  printingOrPaused status = true ↔
  currentPrintState status = Some "printing" ∨ currentPrintState status = Some "paused".
Proof.
  unfold printingOrPaused. rewrite orb_true_iff, !strictEq_iff. done.
Qed.

(** C2. With the five toggles on, the snapshot of the round-trip scenario is
    reduced to exactly the lines Printing, B:60/60°, H:204/205°, 12%, L:12/100,
    in this order, and they are presented joined by line feeds. *)
Theorem round_trip_scenario (base port key : option string) (interval : option number) :
  titleLines roundTripSnapshot (allTogglesOn base port key interval)
  = ["Printing"; "B:60/60°"; "H:204/205°"; "12%"; "L:12/100"]
  ∧ titles (updateKeyDisplay roundTripSnapshot "key" (allTogglesOn base port key interval)).1
    = ["Printing" +:+ nl +:+ "B:60/60°" +:+ nl +:+ "H:204/205°" +:+ nl +:+ "12%"
       +:+ nl +:+ "L:12/100"].
Proof. split; vm_compute; reflexivity. Qed.

(** C3, as the claim states it, fails where the state is the empty string:
    the state is present, no toggle produced a line, and the output is
    No Data, not the state label. *)
Lemma empty_state_shows_no_data :
  (∃ ps, print_stats emptyStateSnapshot = Some ps)
  ∧ toggleLines emptyStateSnapshot (noToggles None None None None) = []
  ∧ titleLines emptyStateSnapshot (noToggles None None None None) = ["No Data"]
  ∧ titleLines emptyStateSnapshot (noToggles None None None None)
    ≠ [displayablePrintState emptyStateSnapshot].
Proof. split; [by eexists|]. split; [done|]. split; [done|]. by vm_compute. Qed.

(** C3, amended. The reducer never returns an empty list; when no toggle
    produced a line, the output is the single state label if a non-empty state
    was present, and the single line No Data if the state is absent or is the
    empty string. *)
Theorem titleLines_fallback (status : MoonrakerPrinterObjects) (s : MoonrakerSettings) :
  (0 < length (titleLines status s))%nat
  ∧ (toggleLines status s = [] →
     (∀ ps, print_stats status = Some ps → state ps ≠ "" →
            titleLines status s = [displayablePrintState status])
     ∧ (print_stats status = None ∨ (∃ ps, print_stats status = Some ps ∧ state ps = "") →
        titleLines status s = ["No Data"])).
Proof.
  split; [apply titleLines_nonempty|].
  intros Hnone. unfold titleLines. rewrite Hnone. unfold currentPrintState. split.
  - intros ps -> Hstate. simpl.
    destruct (toLowerCase (state ps)) eqn:E; [|done].
    exfalso. by apply Hstate, toLowerCase_empty.
  - intros [-> | (ps & -> & Hstate)]; [done|]. simpl. by rewrite Hstate.
Qed.

Lemma titleLines_fallback_witness :
  toggleLines completeSnapshot (noToggles None None None None) = []
  ∧ titleLines completeSnapshot (noToggles None None None None) = ["Complete"]
  ∧ titleLines noStatus (noToggles None None None None) = ["No Data"].
Proof.
  pose proof (titleLines_fallback completeSnapshot (noToggles None None None None)) as [_ H1].
  pose proof (titleLines_fallback noStatus (noToggles None None None None)) as [_ H2].
  split; [reflexivity|]. split.
  - apply (proj1 (H1 eq_refl) _ eq_refl). discriminate.
  - apply (proj2 (H2 eq_refl)). by left.
Defined.

(** C9. The progress line is produced exactly when the progress toggle is on,
    the snapshot has a progress fraction and the lower-cased state is printing
    or paused; the line is then [Math.round(fraction * 100)] followed by the
    percent sign, it is one of the lines of the output, and what stands before
    the percent sign is the decimal numeral of the integer nearest to the
    product of the fraction and 100, the product being the binary64 one (a
    tie going up; a product that is not finite is printed as itself). *)
Theorem progress_line_iff (status : MoonrakerPrinterObjects) (s : MoonrakerSettings)
    (line : string) :
  (progressLine status s = Some line ↔
   displayPrintProgress s = Some true
   ∧ (∃ sd, virtual_sdcard status = Some sd
            ∧ line = Number_toString (Math_round (progress sd * 100)%float) +:+ "%")
   ∧ (∃ ps, print_stats status = Some ps
            ∧ (toLowerCase (state ps) = "printing" ∨ toLowerCase (state ps) = "paused")))
  ∧ (progressLine status s = Some line → line ∈ titleLines status s)
  ∧ (progressLine status s = Some line →
     ∃ sd text, virtual_sdcard status = Some sd
                ∧ line = text +:+ "%"
                ∧ printsNearestInteger (progress sd * 100)%float text).
Proof.
  assert (Hstate : printingOrPaused status = true ↔
            ∃ ps, print_stats status = Some ps
                  ∧ (toLowerCase (state ps) = "printing" ∨ toLowerCase (state ps) = "paused")).
  { rewrite printingOrPaused_iff. unfold currentPrintState.
    destruct (print_stats status) as [ps|]; simpl.
    - split.
      + intros [[= H]|[= H]]; exists ps; eauto.
      + intros (? & [= <-] & [->| ->]); eauto.
    - split; [intros [|]; done | intros (? & ? & _); done]. }
  split.
  - unfold progressLine, on.
    destruct (virtual_sdcard status) as [sd|].
    + destruct (displayPrintProgress s) as [[]|] eqn:Htoggle; simpl.
      * destruct (printingOrPaused status).
        -- split.
           ++ intros [= <-]. split; [done|]. split; [eauto|]. by apply Hstate.
           ++ intros (_ & (? & [= <-] & ->) & _). done.
        -- split; [done|]. intros (_ & _ & Hps). by apply Hstate in Hps.
      * split; [done | intros ([=] & _)].
      * split; [done | intros ([=] & _)].
    + split; [done | intros (_ & (? & [=] & _) & _)].
  - split.
    + intros H. unfold titleLines.
      assert (Hin : line ∈ toggleLines status s).
      { unfold toggleLines. apply list_elem_of_omap. exists (Some line).
        split; [|done]. rewrite <- H.
        do 3 apply list_elem_of_further. apply list_elem_of_here. }
      destruct (toggleLines status s); [by apply elem_of_nil in Hin | done].
    + unfold progressLine. destruct (virtual_sdcard status) as [sd|]; [|done].
      destruct (on (displayPrintProgress s) && printingOrPaused status); [|done].
      intros [= <-]. eexists sd, _. split; [done|]. split; [done|].
      apply Math_round_prints.
Qed.

Lemma progress_line_witness :
  progressLine roundTripSnapshot sampleSettings = Some "12%"
  ∧ "12%" ∈ titleLines roundTripSnapshot sampleSettings.
Proof.
  split; [vm_compute; reflexivity|].
  apply (proj1 (proj2 (progress_line_iff roundTripSnapshot sampleSettings "12%"))).
  vm_compute; reflexivity.
Defined.

(** ** Settings validator and endpoint builder *)

Lemma isValidSettings_iff (s : MoonrakerSettings) :
  isValidSettings s = true ↔
  (∃ base, baseUrl s = Some base ∧ base ≠ "")
  ∧ (∃ x, pollingInterval s = Some x ∧ gt x 0%float = true).
Proof.
  unfold isValidSettings. rewrite !andb_true_iff.
  destruct (baseUrl s) as [base|], (pollingInterval s) as [x|]; simpl.
  - rewrite truthyString_iff. split.
    + intros [[? _] ?]. split; eauto.
    + intros [(? & [= <-] & ?) (? & [= <-] & Hx)]. auto using gt_zero_truthy.
  - split; [intros [[_ [=]] _] | intros [_ (? & [=] & _)]].
  - split; [intros [[[=] _] _] | intros [(? & [=] & _) _]].
  - split; [intros [[[=] _] _] | intros [(? & [=] & _) _]].
Qed.

Lemma withPort_value (s : MoonrakerSettings) (base : string) :
  baseUrl s = Some base →
  (∀ p, port s = Some p → p ≠ "" →
        (∀ b, base = b +:+ "/" → withPort s = b +:+ ":" +:+ p)
        ∧ ((∀ b, base ≠ b +:+ "/") → withPort s = base +:+ ":" +:+ p))
  ∧ (port s = None ∨ port s = Some "" → withPort s = base).
Proof.
  intros Hbase. unfold withPort. rewrite Hbase. simpl. split.
  - intros p -> Hp%truthyString_iff. rewrite Hp. split.
    + intros b ->. by rewrite endsWith_append, slice_drop_last.
    + intros Hno. destruct (endsWith base "/") eqn:E; [|done].
      apply endsWith_inv in E as [b ->]. by destruct (Hno b).
  - by intros [-> | ->].
Qed.

Lemma withScheme_value (url : string) :
  ((∃ r, url = "http://" +:+ r ∨ url = "https://" +:+ r) → withScheme url = url)
  ∧ ((∀ r, url ≠ "http://" +:+ r ∧ url ≠ "https://" +:+ r) →
     withScheme url = "http://" +:+ url).
Proof.
  unfold withScheme. split.
  - intros [r [H|H]].
    + assert (startsWith url "http://" = true) as -> by (apply startsWith_iff; eauto). done.
    + assert (startsWith url "https://" = true) as -> by (apply startsWith_iff; eauto).
      by rewrite andb_false_r.
  - intros Hno.
    destruct (startsWith url "http://") eqn:E1.
    { apply startsWith_iff in E1 as [r ->]. by destruct (Hno r) as [? _]. }
    destruct (startsWith url "https://") eqn:E2; [|done].
    apply startsWith_iff in E2 as [r ->]. by destruct (Hno r) as [_ ?].
Qed.

(** C5. The endpoint is a function of the base address and the port, the
    headers of the access key. For valid settings: with a port (a non-empty
    string; an empty one is no port for the code's test) one trailing slash of
    the base address goes, if there is one, and [:port] is appended; an
    address without an [http://] or [https://] prefix gets [http://]; settings
    that agree on the three fields give the same URL and headers, which are
    those of the request the cycle issues. *)
Theorem endpoint_construction (s : MoonrakerSettings) :
  isValidSettings s = true →
  ∃ base, baseUrl s = Some base ∧ base ≠ ""
  ∧ (∀ p, port s = Some p → p ≠ "" →
          (∀ b, base = b +:+ "/" → withPort s = b +:+ ":" +:+ p)
          ∧ ((∀ b, base ≠ b +:+ "/") → withPort s = base +:+ ":" +:+ p))
  ∧ (port s = None ∨ port s = Some "" → withPort s = base)
  ∧ ((∃ r, withPort s = "http://" +:+ r ∨ withPort s = "https://" +:+ r) →
     endpoint s = withPort s +:+ queryPath)
  ∧ ((∀ r, withPort s ≠ "http://" +:+ r ∧ withPort s ≠ "https://" +:+ r) →
     endpoint s = "http://" +:+ withPort s +:+ queryPath)
  ∧ (∀ s', baseUrl s' = baseUrl s → port s' = port s → apiKey s' = apiKey s →
           endpoint s' = endpoint s ∧ requestHeaders s' = requestHeaders s)
  ∧ (∀ actionId net, ∃ rest,
       (fetchDataAndUpdateKey actionId s net).1
       = EFetch (endpoint s) (requestHeaders s) :: rest).
Proof.
  intros Hvalid.
  destruct (proj1 (isValidSettings_iff s) Hvalid) as [(base & Hbase & Hne) _].
  exists base. split; [done|]. split; [done|].
  destruct (withPort_value s base Hbase) as [Hport Hnoport].
  destruct (withScheme_value (withPort s)) as [Hhas Hlacks].
  split; [done|]. split; [done|]. unfold endpoint. split; [|split; [|split]].
  - intros H. by rewrite Hhas.
  - intros H. rewrite Hlacks by done. reflexivity.
  - intros s' Hb Hp Hk. unfold withPort, requestHeaders. by rewrite Hb, Hp, Hk.
  - intros actionId net. unfold fetchDataAndUpdateKey. rewrite Hvalid. simpl.
    unfold mbind, Async_bind. simpl. eauto.
Qed.

Lemma endpoint_construction_witness :
  isValidSettings sampleSettings = true
  ∧ withPort sampleSettings = "mainsailos.local" +:+ ":" +:+ "7125"
  ∧ endpoint sampleSettings = "http://" +:+ withPort sampleSettings +:+ queryPath.
Proof.
  assert (Hv : isValidSettings sampleSettings = true) by (vm_compute; reflexivity).
  destruct (endpoint_construction sampleSettings Hv)
    as (base & Hb & _ & Hport & _ & _ & Hlacks & _).
  injection Hb as <-.
  split; [exact Hv|]. split.
  - apply (proj1 (Hport "7125" eq_refl ltac:(discriminate)) "mainsailos.local" eq_refl).
  - apply Hlacks. intros r. vm_compute. split; discriminate.
Defined.

(** ** The fetch cycle *)

Lemma bind_emit (e : Effect) (m : Async ()) : (emit e;; m) = (e :: m.1, m.2).
Proof. reflexivity. Qed.

Lemma updateKeyDisplay_returns status actionId s :
  (updateKeyDisplay status actionId s).2 = Returned ().
Proof. unfold updateKeyDisplay. rewrite bind_emit. by destruct (iconFileName status). Qed.

Lemma tryCatch_returns (body : Async ()) (handler : string → Async ()) :
  (∀ reason, (handler reason).2 = Returned ()) → (tryCatch body handler).2 = Returned ().
Proof.
  intros H. unfold tryCatch. destruct body as [effects [[]|reason]]; simpl; [done | apply H].
Qed.

(** The cycle never throws: whatever the network does, its promise resolves. *)
Lemma afterFetch_returns actionId s net : (afterFetch actionId s net).2 = Returned ().
Proof. unfold afterFetch. by apply tryCatch_returns. Qed.

Lemma fetchDataAndUpdateKey_returns actionId s net :
  (fetchDataAndUpdateKey actionId s net).2 = Returned ().
Proof.
  unfold fetchDataAndUpdateKey. rewrite bind_emit.
  destruct (isValidSettings s); [apply afterFetch_returns | done].
Qed.

Lemma fetchDataAndUpdateKey_invalid actionId s net :
  isValidSettings s = false →
  fetchDataAndUpdateKey actionId s net = ([ESetTitle actionId settingsInvalidTitle], Returned ()).
Proof. intros H. unfold fetchDataAndUpdateKey. by rewrite H. Qed.

Lemma fetchDataAndUpdateKey_valid actionId s net :
  isValidSettings s = true →
  (fetchDataAndUpdateKey actionId s net).1
  = EFetch (endpoint s) (requestHeaders s) :: (afterFetch actionId s net).1.
Proof. intros H. unfold fetchDataAndUpdateKey. by rewrite H, bind_emit. Qed.

(** What the cycle does with a response whose status is not in 200..299. *)
Lemma afterFetch_http_error actionId s r :
  Response.ok r = false →
  (afterFetch actionId s (Resolved r)).1
  = ESetTitle actionId (httpErrorTitle (Response.status r))
    :: match Response.text r with
       | Resolved errorText =>
           [ELogError ["Action " +:+ actionId +:+ ": Moonraker API Error: "
                       +:+ string_of_N (Response.status r) +:+ " "
                       +:+ Response.statusText r +:+ " - Response: " +:+ errorText]]
       | Rejected reason =>
           [ESetTitle actionId fetchErrorTitle;
            ELogError ["Action " +:+ actionId
                       +:+ ": Exception during fetch or data processing:"; reason]]
       end.
Proof.
  intros Hok. unfold afterFetch, tryCatch, mbind, Async_bind. simpl. rewrite Hok. simpl.
  by destruct (Response.text r).
Qed.

(** C7. For valid settings and a response whose status is outside 200..299,
    the cycle returns normally (nothing is thrown to its caller), presents
    the title Error: followed by the decimal status right after the request,
    and the response body shows up in the log entry and nowhere else. *)
Theorem http_error_presented (actionId : string) (s : MoonrakerSettings)
    (status : N) (statusText : string) (text : Awaited string) (json : Awaited Decoded) :
  isValidSettings s = true →
  (status < 200 ∨ 299 < status)%N →
  let cycle body := fetchDataAndUpdateKey actionId s
                      (Resolved (response status statusText body json)) in
  (cycle text).2 = Returned ()
  ∧ hostView (cycle text) = (cycle text).1
  ∧ (∃ rest, (cycle text).1
             = EFetch (endpoint s) (requestHeaders s)
               :: ESetTitle actionId ("Error:" +:+ nl +:+ string_of_N status) :: rest)
  ∧ (∀ errorText,
       (cycle (Resolved errorText)).1
       = [EFetch (endpoint s) (requestHeaders s);
          ESetTitle actionId ("Error:" +:+ nl +:+ string_of_N status);
          ELogError ["Action " +:+ actionId +:+ ": Moonraker API Error: "
                     +:+ string_of_N status +:+ " " +:+ statusText
                     +:+ " - Response: " +:+ errorText]]
       ∧ observable (cycle (Resolved errorText)).1
         = [EFetch (endpoint s) (requestHeaders s);
            ESetTitle actionId ("Error:" +:+ nl +:+ string_of_N status)]).
Proof.
  intros Hvalid Hstatus cycle.
  assert (Hok : ∀ body, Response.ok (response status statusText body json) = false).
  { intros body. unfold Response.ok. simpl. apply andb_false_iff.
    destruct Hstatus; [left | right]; apply N.leb_gt; lia. }
  assert (Hret : (cycle text).2 = Returned ()) by apply fetchDataAndUpdateKey_returns.
  split; [done|]. split; [unfold hostView; by rewrite Hret|].
  subst cycle. simpl. split.
  - rewrite fetchDataAndUpdateKey_valid, afterFetch_http_error by done. eauto.
  - intros errorText.
    rewrite fetchDataAndUpdateKey_valid, afterFetch_http_error by done. done.
Qed.

Lemma http_error_presented_witness :
  isValidSettings sampleSettings = true
  ∧ titles (fetchDataAndUpdateKey "key" sampleSettings (Resolved unauthorized)).1
    = ["Error:" +:+ nl +:+ "401"]
  ∧ (fetchDataAndUpdateKey "key" sampleSettings (Resolved unauthorized)).2 = Returned ().
Proof.
  assert (Hv : isValidSettings sampleSettings = true) by (vm_compute; reflexivity).
  destruct (http_error_presented "key" sampleSettings 401 "Unauthorized"
              (Resolved "{error: Unauthorized}") (Rejected "") Hv ltac:(right; reflexivity))
    as (Hret & _ & _ & Hlog).
  split; [exact Hv|]. split; [|exact Hret].
  unfold unauthorized.
  rewrite (proj1 (Hlog "{error: Unauthorized}")). reflexivity.
Defined.

(** What the cycle does when a promise of the [try] block rejects or the
    decoded value lacks the envelope: the one [catch]. *)
Lemma afterFetch_caught actionId s net reason :
  net = Rejected reason
  ∨ (∃ r, net = Resolved r ∧ Response.ok r = true
          ∧ (Response.json r = Rejected reason
             ∨ (Response.json r = Resolved NoResult
                ∧ reason = "Cannot read properties of undefined (reading 'status')")
             ∨ (Response.json r = Resolved NoStatus
                ∧ reason = "Cannot read properties of undefined (reading 'print_stats')"))) →
  (afterFetch actionId s net).1
  = [ESetTitle actionId fetchErrorTitle;
     ELogError ["Action " +:+ actionId +:+ ": Exception during fetch or data processing:";
                reason]].
Proof.
  unfold afterFetch, tryCatch, mbind, Async_bind.
  intros [-> | (r & -> & Hok & [Hjson | [[Hjson ->] | [Hjson ->]]])]; simpl;
    [done | rewrite Hok, Hjson; done ..].
Qed.

(** C8, as the claim states it, fails: with the same valid settings, a
    transport failure and an undecodable body present the same title,
    Fetch Error, and the same effects on the key. *)
Lemma transport_and_parse_failures_share_title :
  titles (fetchDataAndUpdateKey "key" sampleSettings (Rejected "fetch failed")).1
  = ["Fetch" +:+ nl +:+ "Error"]
  ∧ titles (fetchDataAndUpdateKey "key" sampleSettings
              (Resolved (response 200 "OK" (Resolved "<html>")
                           (Rejected "Unexpected token < in JSON at position 0")))).1
    = ["Fetch" +:+ nl +:+ "Error"]
  ∧ observable (fetchDataAndUpdateKey "key" sampleSettings (Rejected "fetch failed")).1
    = observable (fetchDataAndUpdateKey "key" sampleSettings
                    (Resolved (response 200 "OK" (Resolved "<html>")
                                 (Rejected "Unexpected token < in JSON at position 0")))).1.
Proof. repeat split; vm_compute; reflexivity. Qed.

(** C8, amended. Transport failures and parse failures surface as the same
    presentation. For valid settings, when the promise of [fetch] rejects
    (DNS, connection refused, timeout), and when a response with a 2xx status
    has a body that is not JSON or that decodes to a value without [result] or
    without [status], the cycle presents the title Fetch Error and nothing else
    on the key; only the logged message tells the failures apart. *)
Theorem failures_present_fetch_error (actionId : string) (s : MoonrakerSettings)
    (net : Awaited Response.t) (reason : string) :
  isValidSettings s = true →
  net = Rejected reason
  ∨ (∃ r, net = Resolved r ∧ Response.ok r = true
          ∧ (Response.json r = Rejected reason
             ∨ (Response.json r = Resolved NoResult
                ∧ reason = "Cannot read properties of undefined (reading 'status')")
             ∨ (Response.json r = Resolved NoStatus
                ∧ reason = "Cannot read properties of undefined (reading 'print_stats')"))) →
  fetchDataAndUpdateKey actionId s net
  = ([EFetch (endpoint s) (requestHeaders s);
      ESetTitle actionId ("Fetch" +:+ nl +:+ "Error");
      ELogError ["Action " +:+ actionId +:+ ": Exception during fetch or data processing:";
                 reason]],
     Returned ())
  ∧ observable (fetchDataAndUpdateKey actionId s net).1
    = [EFetch (endpoint s) (requestHeaders s);
       ESetTitle actionId ("Fetch" +:+ nl +:+ "Error")].
Proof.
  intros Hvalid Hnet.
  pose proof (fetchDataAndUpdateKey_valid actionId s net Hvalid) as Heffects.
  pose proof (fetchDataAndUpdateKey_returns actionId s net) as Hret.
  rewrite (afterFetch_caught _ _ _ _ Hnet) in Heffects.
  destruct (fetchDataAndUpdateKey actionId s net) as [effects c]. simpl in *.
  by rewrite Heffects, Hret.
Qed.

Lemma failures_present_fetch_error_witness :
  isValidSettings sampleSettings = true
  ∧ titles (fetchDataAndUpdateKey "key" sampleSettings (Rejected "fetch failed")).1
    = ["Fetch" +:+ nl +:+ "Error"]
  ∧ titles (fetchDataAndUpdateKey "key" sampleSettings
              (Resolved (response 200 "OK" (Resolved "{}") (Resolved NoResult)))).1
    = ["Fetch" +:+ nl +:+ "Error"].
Proof.
  assert (Hv : isValidSettings sampleSettings = true) by (vm_compute; reflexivity).
  split; [exact Hv|]. split.
  - rewrite (proj1 (failures_present_fetch_error "key" sampleSettings
                      (Rejected "fetch failed") "fetch failed" Hv (or_introl eq_refl))).
    reflexivity.
  - rewrite (proj1 (failures_present_fetch_error "key" sampleSettings
                      (Resolved (response 200 "OK" (Resolved "{}") (Resolved NoResult)))
                      "Cannot read properties of undefined (reading 'status')" Hv
                      (or_intror (ex_intro _ _ (conj eq_refl (conj eq_refl
                         (or_intror (or_introl (conj eq_refl eq_refl))))))))).
    reflexivity.
Defined.

(** ** The scheduler *)

Section Scheduler.

Implicit Types (w : World) (actionId a : string) (s : MoonrakerSettings) (t : Timeout).

Lemma storedTimer_insert w a st actionId :
  storedTimer (withStates w (<[a := st]> (actionStates w))) actionId
  = if decide (a = actionId) then timerId st else storedTimer w actionId.
Proof.
  unfold storedTimer, withStates. simpl. rewrite lookup_insert.
  by destruct (decide (a = actionId)).
Qed.

Lemma stop_nextTimeout a w : nextTimeout (stopPollingForAction a w) = nextTimeout w.
Proof.
  unfold stopPollingForAction.
  destruct (actionStates w !! a) as [st|]; [|done]. by destruct (timerId st).
Qed.

Lemma stop_inFlight a w : inFlight (stopPollingForAction a w) = inFlight w.
Proof.
  unfold stopPollingForAction.
  destruct (actionStates w !! a) as [st|]; [|done]. by destruct (timerId st).
Qed.

Lemma stop_intervals a w : intervals (stopPollingForAction a w) ⊆ intervals w.
Proof.
  unfold stopPollingForAction.
  destruct (actionStates w !! a) as [st|]; [|done].
  destruct (timerId st); [|done]. simpl. apply delete_subseteq.
Qed.

(** After [stopPollingForAction] the record of the instance holds no timer, and the timer it
    held is no longer live. *)
Lemma stop_storedTimer a w actionId :
  storedTimer (stopPollingForAction a w) actionId
  = if decide (a = actionId) then None else storedTimer w actionId.
Proof.
  unfold stopPollingForAction.
  destruct (actionStates w !! a) as [st|] eqn:Hst.
  - destruct (timerId st) as [t|] eqn:Ht.
    + unfold storedTimer. simpl. rewrite lookup_insert.
      by destruct (decide (a = actionId)).
    + destruct (decide (a = actionId)) as [<-|]; [|done].
      unfold storedTimer. by rewrite Hst; simpl.
  - destruct (decide (a = actionId)) as [<-|]; [|done].
    unfold storedTimer. by rewrite Hst.
Qed.

Lemma stop_clears a w t :
  storedTimer w a = Some t → intervals (stopPollingForAction a w) !! t = None.
Proof.
  unfold storedTimer, stopPollingForAction.
  destruct (actionStates w !! a) as [st|]; simpl; [|done].
  intros ->. simpl. apply lookup_delete_eq.
Qed.

Lemma frame_refl actionId w : frame actionId w w.
Proof. split; [lia | auto]. Qed.

Lemma frame_trans actionId w1 w2 w3 :
  frame actionId w1 w2 → frame actionId w2 w3 → frame actionId w1 w3.
Proof.
  intros [Hn1 H1] [Hn2 H2]. split; [lia|].
  intros t Ht. destruct (H2 t Ht) as [Ht2|]; [|right; lia]. apply H1, Ht2.
Qed.

Lemma frame_stop a actionId w : frame actionId w (stopPollingForAction a w).
Proof.
  split; [by rewrite stop_nextTimeout|].
  intros t. rewrite stop_storedTimer. destruct (decide (a = actionId)); [done | auto].
Qed.

Lemma frame_withInFlight actionId w l : frame actionId w (withInFlight w l).
Proof. split; [simpl; lia | auto]. Qed.

Lemma frame_startPolling a s actionId w : frame actionId w (startPolling a s w).1.
Proof.
  unfold startPolling, setInterval. simpl.
  destruct (actionStates w !! a) as [st|]; simpl.
  - split; [simpl; lia|]. intros t.
    unfold storedTimer. simpl. rewrite lookup_insert.
    destruct (decide (a = actionId)); simpl; [intros [= <-]; right; lia | auto].
  - split; [simpl; lia | auto].
Qed.

Lemma frame_resume k a s actionId w : frame actionId w (resume k a s w).1.
Proof. destruct k; [apply frame_refl | apply frame_startPolling]. Qed.

Lemma frame_beginCycle a s k actionId w : frame actionId w (beginCycle a s k w).1.
Proof.
  unfold beginCycle. destruct (isValidSettings s); [apply frame_withInFlight|].
  pose proof (frame_resume k a s actionId w) as H.
  by destruct (resume k a s w).
Qed.

Lemma frame_settleCycle i net actionId w : frame actionId w (settleCycle i net w).1.
Proof.
  unfold settleCycle. destruct (inFlight w !! i) as [f|]; [|apply frame_refl].
  rewrite afterFetch_returns.
  pose proof (frame_resume (flThen f) (flAction f) (flSettings f) actionId
                (withInFlight w (delete i (inFlight w)))) as H.
  destruct (resume _ _ _ _). simpl in *.
  eapply frame_trans; [apply frame_withInFlight | exact H].
Qed.

Lemma frame_apply a s actionId w :
  frame actionId w (applySettingsAndStartPolling a s w).1.
Proof.
  unfold applySettingsAndStartPolling.
  destruct (isValidSettings s); [|apply frame_stop].
  eapply frame_trans; [apply frame_stop | apply frame_beginCycle].
Qed.

Lemma frame_insert a st actionId w :
  timerId st = None ∨ timerId st = storedTimer w a →
  frame actionId w (withStates w (<[a := st]> (actionStates w))).
Proof.
  intros Hst. split; [simpl; lia|]. intros t. rewrite storedTimer_insert.
  destruct (decide (a = actionId)) as [<-|]; [|auto].
  destruct Hst as [-> | ->]; [done | auto].
Qed.

Lemma frame_step actionId w ev : frame actionId w (step w ev).1.
Proof.
  destruct ev as [a payload|a|a newSettings|a|t|i net]; simpl.
  - eapply frame_trans; [|apply frame_apply]. apply frame_insert. by left.
  - unfold onWillDisappear. simpl.
    eapply frame_trans; [apply (frame_stop a)|].
    split; [simpl; lia|]. intros t. unfold storedTimer. simpl.
    rewrite lookup_delete. destruct (decide (a = actionId)); [done | auto].
  - unfold onDidReceiveSettings.
    eapply frame_trans; [|apply frame_apply].
    destruct (actionStates w !! a) as [st|] eqn:Hst; apply frame_insert.
    + right. unfold storedTimer. by rewrite Hst.
    + by left.
  - unfold onKeyDown. destruct (actionStates w !! a); [|apply frame_refl].
    apply frame_beginCycle.
  - destruct (intervals w !! t) as [iv|]; [|apply frame_refl].
    unfold intervalCallback.
    destruct (actionStates w !! ivAction iv) as [st|]; [|apply frame_refl].
    destruct (decide _); [apply frame_beginCycle | apply frame_refl].
  - apply frame_settleCycle.
Qed.

Lemma storedSince_frame n actionId w w' :
  storedSince n actionId w → frame actionId w w' → storedSince n actionId w'.
Proof.
  intros [Hn H] [Hn' H']. split; [lia|].
  intros t Ht. destruct (H' t Ht) as [Ht'|]; [by apply H | lia].
Qed.

Lemma storedSince_run n actionId evs w :
  storedSince n actionId w → storedSince n actionId (run w evs).1.
Proof.
  revert w. induction evs as [|ev evs IH]; intros w Hw; simpl; [done|].
  pose proof (frame_step actionId w ev) as Hstep.
  destruct (step w ev) as [w1 e1]. specialize (IH w1).
  destruct (run w1 evs) as [w2 e2]. simpl in *.
  eauto using storedSince_frame.
Qed.

(** Right after a settings change is handled the record is without a timer. *)
Lemma apply_storedTimer actionId s w :
  storedTimer (applySettingsAndStartPolling actionId s w).1 actionId = None.
Proof.
  unfold applySettingsAndStartPolling.
  destruct (isValidSettings s) eqn:Hv; simpl.
  - unfold beginCycle. rewrite Hv. simpl.
    change (storedTimer (stopPollingForAction actionId w) actionId = None).
    rewrite stop_storedTimer. by destruct (decide _).
  - rewrite stop_storedTimer. by destruct (decide _).
Qed.

Lemma apply_nextTimeout actionId s w :
  nextTimeout (applySettingsAndStartPolling actionId s w).1 = nextTimeout w.
Proof.
  unfold applySettingsAndStartPolling.
  destruct (isValidSettings s) eqn:Hv; simpl.
  - unfold beginCycle. rewrite Hv. simpl. apply stop_nextTimeout.
  - apply stop_nextTimeout.
Qed.

Lemma settings_changed_storedSince actionId s w :
  storedSince (nextTimeout w) actionId (onDidReceiveSettings actionId s w).1.
Proof.
  unfold onDidReceiveSettings. split.
  - rewrite apply_nextTimeout. by destruct (actionStates w !! actionId).
  - intros t. by rewrite apply_storedTimer.
Qed.

(** The two views of a cycle agree: issued in one turn and settled in a
    later one, a cycle with nothing to resume performs the effects of
    [fetchDataAndUpdateKey] and leaves the scheduler as it found it. *)
Lemma cycle_in_two_turns actionId s net w :
  let issued := beginCycle actionId s Finished w in
  let settled :=
    if isValidSettings s then settleCycle (length (inFlight w)) net issued.1
    else (issued.1, []) in
  settled.1 = w ∧ issued.2 ++ settled.2 = (fetchDataAndUpdateKey actionId s net).1.
Proof.
  unfold beginCycle. destruct (isValidSettings s) eqn:Hv; simpl.
  - unfold settleCycle. simpl. rewrite list_lookup_middle by done.
    rewrite afterFetch_returns. simpl. rewrite delete_middle, !app_nil_r.
    rewrite fetchDataAndUpdateKey_valid by done. by destruct w.
  - by rewrite fetchDataAndUpdateKey_invalid.
Qed.

(** The guard: the callback of a stale timer does nothing. *)
Lemma intervalCallback_stale actionId t w :
  stale w actionId t → intervalCallback actionId t w = (w, []).
Proof.
  unfold stale, storedTimer, intervalCallback.
  destruct (actionStates w !! actionId) as [st|]; simpl; [|done].
  intros H. by destruct (decide (timerId st = Some t)).
Qed.

End Scheduler.

(** ** Lifecycle properties *)

Lemma stale_iff (w : World) (actionId : string) (t : Timeout) :
  stale w actionId t ↔
  actionStates w !! actionId = None
  ∨ ∃ st, actionStates w !! actionId = Some st ∧ timerId st ≠ Some t.
Proof.
  unfold stale, storedTimer. destruct (actionStates w !! actionId) as [st|]; simpl.
  - split; [eauto | by intros [|(? & [= <-] & ?)]].
  - split; [by left | done].
Qed.

(** C1. The callback of a recurring timer whose identity is not the one
    stored in the record of its instance, or whose instance has no record any
    more, leaves the scheduler as it is and performs nothing: no fetch,
    no title or image, no new timer. In the sequence settings-changed, tick of
    an old timer, settings-changed, tick of the old timer, both ticks issue no
    fetch; and once a settings change has been handled, a timer created before
    it stays stale whatever events follow. *)
Theorem stale_timer_guard :
  (∀ w actionId t,
     (actionStates w !! actionId = None
      ∨ ∃ st, actionStates w !! actionId = Some st ∧ timerId st ≠ Some t) →
     intervalCallback actionId t w = (w, []))
  ∧ (∀ w actionId s1 s2 t,
       let w1 := (step w (DidReceiveSettings actionId s1)).1 in
       let tick1 := intervalCallback actionId t w1 in
       let w2 := (step tick1.1 (DidReceiveSettings actionId s2)).1 in
       let tick2 := intervalCallback actionId t w2 in
       fetchCalls tick1.2 = 0%nat ∧ fetchCalls tick2.2 = 0%nat
       ∧ tick1 = (w1, []) ∧ tick2 = (w2, []))
  ∧ (∀ w actionId s evs t,
       (t < nextTimeout w)%nat →
       let w' := (run w (DidReceiveSettings actionId s :: evs)).1 in
       intervalCallback actionId t w' = (w', [])).
Proof.
  split; [|split].
  - intros w actionId t H. by apply intervalCallback_stale, stale_iff.
  - intros w actionId s1 s2 t. simpl.
    assert (Hfresh : ∀ w0 s0,
              intervalCallback actionId t (onDidReceiveSettings actionId s0 w0).1
              = ((onDidReceiveSettings actionId s0 w0).1, [])).
    { intros w0 s0. apply intervalCallback_stale. unfold stale, onDidReceiveSettings.
      by rewrite apply_storedTimer. }
    rewrite Hfresh. simpl. rewrite Hfresh. done.
  - intros w actionId s evs t Ht. simpl.
    pose proof (settings_changed_storedSince actionId s w) as Hsince.
    destruct (onDidReceiveSettings actionId s w) as [w1 e1]. simpl in Hsince.
    apply (storedSince_run _ _ evs) in Hsince. revert Hsince.
    destruct (run w1 evs) as [w2 e2]. simpl. intros [_ Hsince].
    apply intervalCallback_stale. intros Hstored.
    apply Hsince in Hstored. lia.
Qed.

Lemma stale_timer_guard_witness :
  storedTimer polledWorld "key" = Some 0%nat
  ∧ (0 < nextTimeout polledWorld)%nat
  ∧ intervalCallback "key" 0%nat
      (run polledWorld
         [DidReceiveSettings "key" otherSettings; FetchSettles 0 okResponse;
          DidReceiveSettings "key" sampleSettings]).1
    = ((run polledWorld
          [DidReceiveSettings "key" otherSettings; FetchSettles 0 okResponse;
           DidReceiveSettings "key" sampleSettings]).1, []).
Proof.
  assert (H : (0 < nextTimeout polledWorld)%nat) by (vm_compute; lia).
  split; [vm_compute; reflexivity|]. split; [exact H|].
  exact (proj2 (proj2 stale_timer_guard) polledWorld "key" otherSettings
           [FetchSettles 0 okResponse; DidReceiveSettings "key" sampleSettings] 0%nat H).
Defined.

Lemma apply_invalid actionId s w :
  isValidSettings s = false →
  applySettingsAndStartPolling actionId s w
  = (stopPollingForAction actionId w, [ESetTitle actionId settingsRequiredTitle]).
Proof. intros H. unfold applySettingsAndStartPolling. by rewrite H. Qed.

(** C4. [isValidSettings] holds exactly when the base address is a non-empty
    string and the polling interval is a number above zero. When it does not
    hold, an appearance or a settings change with these settings presents
    Settings Required and schedules nothing: no timer identity is created, no
    interval becomes live, no fetch is put in flight that could start one,
    and the record of the instance holds no timer. *)
Theorem invalid_settings_schedule_nothing (s : MoonrakerSettings) :
  (isValidSettings s = true ↔
   (∃ base, baseUrl s = Some base ∧ base ≠ "")
   ∧ (∃ x, pollingInterval s = Some x ∧ gt x 0%float = true))
  ∧ (isValidSettings s = false →
     ∀ w actionId ev,
       ev = WillAppear actionId (Some s) ∨ ev = DidReceiveSettings actionId s →
       (step w ev).2 = [ESetTitle actionId ("Settings" +:+ nl +:+ "Required")]
       ∧ nextTimeout (step w ev).1 = nextTimeout w
       ∧ intervals (step w ev).1 ⊆ intervals w
       ∧ inFlight (step w ev).1 = inFlight w
       ∧ storedTimer (step w ev).1 actionId = None).
Proof.
  split; [apply isValidSettings_iff|].
  intros Hinvalid w actionId ev [-> | ->]; simpl.
  - unfold onWillAppear. simpl. rewrite apply_invalid by done. simpl.
    rewrite stop_nextTimeout, stop_inFlight, stop_storedTimer.
    split; [done|]. split; [done|]. split; [etrans; [apply stop_intervals | done]|].
    split; [done | by destruct (decide _)].
  - unfold onDidReceiveSettings. rewrite apply_invalid by done. simpl.
    rewrite stop_nextTimeout, stop_inFlight, stop_storedTimer.
    split; [done|]. split; [by destruct (actionStates w !! actionId)|].
    split; [|split; [by destruct (actionStates w !! actionId) | by destruct (decide _)]].
    etrans; [apply stop_intervals|]. by destruct (actionStates w !! actionId).
Qed.

Lemma invalid_settings_schedule_nothing_witness :
  isValidSettings emptySettings = false
  ∧ step polledWorld (DidReceiveSettings "key" emptySettings)
    = ((step polledWorld (DidReceiveSettings "key" emptySettings)).1,
       [ESetTitle "key" ("Settings" +:+ nl +:+ "Required")])
  ∧ storedTimer (step polledWorld (DidReceiveSettings "key" emptySettings)).1 "key" = None.
Proof.
  destruct (proj2 (invalid_settings_schedule_nothing emptySettings) eq_refl polledWorld "key"
              (DidReceiveSettings "key" emptySettings) (or_intror eq_refl))
    as (Heffects & _ & _ & _ & Hstored).
  split; [reflexivity|]. split; [|exact Hstored].
  rewrite <- Heffects. by destruct (step _ _).
Defined.

(** C6, on the code. Two settings changes that overlap (the second arrives
    while the initial fetch of the first is in flight) each store a timer when
    their fetch settles; the second store overwrites timer 1 without
    cancelling it, so two intervals of the instance are live. An appearance
    over an existing record drops the stored timer 0 the same way. *)
Theorem overlapping_changes_leave_two_timers :
  storedTimer (run polledWorld overlappingChanges).1 "key" = Some 1%nat
  ∧ storedTimer (run polledWorld (overlappingChanges ++ [FetchSettles 0 okResponse])).1 "key"
    = Some 2%nat
  ∧ elements (liveTimers
                (run polledWorld (overlappingChanges ++ [FetchSettles 0 okResponse])).1 "key")
    ≡ₚ [1%nat; 2%nat]
  ∧ storedTimer polledWorld "key" = Some 0%nat
  ∧ storedTimer (run polledWorld secondAppearance).1 "key" = Some 1%nat
  ∧ elements (liveTimers (run polledWorld secondAppearance).1 "key") ≡ₚ [0%nat; 1%nat].
Proof.
  repeat split; try (vm_compute; reflexivity).
  - vm_compute. apply perm_swap.
  - vm_compute. apply perm_swap.
Qed.

(** C10. A cycle whose settings are not valid issues no request and presents
    Settings Invalid, whatever the network would have answered; started by a
    key press or by the tick of the stored timer, it leaves the scheduler, its
    records and timers, exactly as it was. *)
Theorem invalid_settings_cycle (s : MoonrakerSettings) :
  isValidSettings s = false →
  (∀ actionId net,
     fetchDataAndUpdateKey actionId s net
     = ([ESetTitle actionId ("Settings" +:+ nl +:+ "Invalid")], Returned ()))
  ∧ (∀ w actionId st,
       actionStates w !! actionId = Some st → settings st = s →
       step w (KeyDown actionId) = (w, [ESetTitle actionId ("Settings" +:+ nl +:+ "Invalid")]))
  ∧ (∀ w actionId st t iv,
       actionStates w !! actionId = Some st → settings st = s →
       timerId st = Some t → intervals w !! t = Some iv → ivAction iv = actionId →
       step w (TimerFires t) = (w, [ESetTitle actionId ("Settings" +:+ nl +:+ "Invalid")])).
Proof.
  intros Hinvalid. split; [|split].
  - intros. by apply fetchDataAndUpdateKey_invalid.
  - intros w actionId st Hst <-. simpl. unfold onKeyDown, beginCycle.
    by rewrite Hst, Hinvalid.
  - intros w actionId st t iv Hst <- Ht Hiv <-. simpl. rewrite Hiv.
    unfold intervalCallback, beginCycle. rewrite Hst, Hinvalid.
    by destruct (decide (timerId st = Some t)).
Qed.

Lemma invalid_settings_cycle_witness :
  isValidSettings emptySettings = false
  ∧ fetchCalls (fetchDataAndUpdateKey "key" emptySettings okResponse).1 = 0%nat
  ∧ titles (fetchDataAndUpdateKey "key" emptySettings okResponse).1
    = ["Settings" +:+ nl +:+ "Invalid"].
Proof.
  pose proof (proj1 (invalid_settings_cycle emptySettings eq_refl) "key" okResponse) as H.
  split; [reflexivity|]. rewrite H. split; reflexivity.
Defined.

(** * Further properties of the code *)

(** ** The display reducer *)

Lemma append_nonempty_l (a b : string) : a ≠ "" → a +:+ b ≠ "".
Proof. by destruct a. Qed.

Lemma append_nonempty_r (a b : string) : b ≠ "" → a +:+ b ≠ "".
Proof. destruct a; [done | by intros _]. Qed.

Lemma displayablePrintState_nonempty status : displayablePrintState status ≠ "".
Proof.
  unfold displayablePrintState.
  destruct (String.eqb _ "Standby"); [done|].
  destruct (currentPrintState status) as [[|c r]|]; simpl; [done | | done].
  unfold charAt. simpl. done.
Qed.

Lemma heaterLine_nonempty prefix toggle heater line :
  heaterLine prefix toggle heater = Some line → line ≠ "".
Proof.
  unfold heaterLine. destruct heater; [|done]. destruct (on toggle); [|done].
  intros [= <-]. do 4 apply append_nonempty_r. done.
Qed.

Lemma toggleLines_nonempty_lines status s :
  Forall (λ line, line ≠ "") (toggleLines status s).
Proof.
  apply Forall_forall. intros line (o & Ho & Hline)%list_elem_of_omap.
  simpl in Hline. subst o.
  repeat (apply elem_of_cons in Ho as [Ho | Ho]); [..| by apply elem_of_nil in Ho].
  - unfold statusLine in Ho. destruct (_ && _); [|done].
    simplify_eq. apply displayablePrintState_nonempty.
  - by eapply heaterLine_nonempty.
  - by eapply heaterLine_nonempty.
  - unfold progressLine in Ho. destruct (virtual_sdcard status); [|done].
    destruct (_ && _); [|done]. simplify_eq. by apply append_nonempty_r.
  - unfold layerLine in Ho. destruct (_ && _); [|done].
    destruct (layerText status) as [text|]; simpl in Ho; [|done].
    destruct (truthyString text) eqn:E; [|done].
    simplify_eq. by apply truthyString_iff.
Qed.

Lemma join_nonempty sep (lines : list string) :
  lines ≠ [] → Forall (λ line, line ≠ "") lines → join sep lines ≠ "".
Proof.
  destruct lines as [|x [|y rest]]; [done | |]; intros _ Hall; simpl.
  - by inversion Hall.
  - apply append_nonempty_l. by inversion Hall.
Qed.

(** X1. What the reducer presents is never blank: every line of the title is
    a non-empty string, there are between one and five of them, and the title
    joined from them is not the empty string. *)
Theorem title_never_blank (status : MoonrakerPrinterObjects) (s : MoonrakerSettings) :
  Forall (λ line, line ≠ "") (titleLines status s)
  ∧ (1 <= length (titleLines status s) <= 5)%nat
  ∧ join nl (titleLines status s) ≠ "".
Proof.
  assert (Hlines : Forall (λ line, line ≠ "") (titleLines status s)).
  { unfold titleLines. pose proof (toggleLines_nonempty_lines status s) as H.
    destruct (toggleLines status s); [|done].
    destruct (truthy _ _); repeat constructor; [apply displayablePrintState_nonempty | done]. }
  assert (Hlen : (length (toggleLines status s) <= 5)%nat).
  { unfold toggleLines. simpl.
    destruct (statusLine status s), (bedLine status s), (hotendLine status s),
      (progressLine status s), (layerLine status s); simpl; lia. }
  split; [done|]. split.
  - pose proof (titleLines_nonempty status s). split; [lia|].
    unfold titleLines in *. destruct (toggleLines status s); [|done].
    destruct (truthy _ _); simpl; lia.
  - apply join_nonempty; [|done].
    pose proof (titleLines_nonempty status s) as H.
    by destruct (titleLines status s); simpl in H; [lia|].
Qed.

Lemma currentPrintState_withState status x :
  currentPrintState (withState status x) = (λ _, toLowerCase x) <$> print_stats status.
Proof. unfold currentPrintState, withState. simpl. by destruct (print_stats status). Qed.

(** X2. The reducer reads the state through [toLowerCase] only: two snapshots
    that differ in the letter case of the state (PRINTING, Printing, printing)
    are rendered with the same lines, the same icon and the same effects. *)
Theorem state_case_ignored (status : MoonrakerPrinterObjects) (s : MoonrakerSettings)
    (x y actionId : string) :
  toLowerCase x = toLowerCase y →
  titleLines (withState status x) s = titleLines (withState status y) s
  ∧ iconFileName (withState status x) = iconFileName (withState status y)
  ∧ updateKeyDisplay (withState status x) actionId s
    = updateKeyDisplay (withState status y) actionId s.
Proof.
  intros H.
  assert (Hc : currentPrintState (withState status x)
               = currentPrintState (withState status y)).
  { by rewrite !currentPrintState_withState, H. }
  assert (Hl : layerText (withState status x) = layerText (withState status y)).
  { unfold layerText, withState. simpl. by destruct (print_stats status). }
  assert (Ht : titleLines (withState status x) s = titleLines (withState status y) s).
  { unfold titleLines, toggleLines, statusLine, bedLine, hotendLine, progressLine,
      layerLine, printingOrPaused, displayablePrintState.
    by rewrite Hc, Hl. }
  assert (Hi : iconFileName (withState status x) = iconFileName (withState status y)).
  { unfold iconFileName. by rewrite Hc. }
  split; [done|]. split; [done|]. unfold updateKeyDisplay. by rewrite Ht, Hi.
Qed.

Lemma state_case_ignored_witness :
  toLowerCase "PRINTING" = toLowerCase "Printing"
  ∧ titleLines (withState roundTripSnapshot "PRINTING") sampleSettings
    = titleLines (withState roundTripSnapshot "Printing") sampleSettings.
Proof.
  split; [reflexivity|].
  exact (proj1 (state_case_ignored roundTripSnapshot sampleSettings
                  "PRINTING" "Printing" "key" eq_refl)).
Defined.

Lemma updateKeyDisplay_effects status actionId s :
  updateKeyDisplay status actionId s
  = ([ESetTitle actionId (join nl (titleLines status s));
      ESetImage actionId (renderedImage status)], Returned ()).
Proof.
  unfold updateKeyDisplay, renderedImage. rewrite bind_emit.
  by destruct (iconFileName status).
Qed.

(** X3. A render paints the key twice and in this order: the title, then the
    image. The image is an icon under imgs/actions/moonraker when the
    lower-cased state is standby, idle, printing, paused, complete or error,
    and the default image (no path) exactly when the state is absent or is
    none of these six. *)
Theorem render_sets_title_then_image (status : MoonrakerPrinterObjects)
    (actionId : string) (s : MoonrakerSettings) :
  updateKeyDisplay status actionId s
  = ([ESetTitle actionId (join nl (titleLines status s));
      ESetImage actionId (renderedImage status)], Returned ())
  ∧ (renderedImage status = None ↔
     Forall (λ name, currentPrintState status ≠ Some name)
            ["standby"; "idle"; "printing"; "paused"; "complete"; "error"])
  ∧ Forall (λ name, currentPrintState status = Some name →
                    ∃ file, renderedImage status = Some ["imgs"; "actions"; "moonraker"; file])
           ["standby"; "idle"; "printing"; "paused"; "complete"; "error"].
Proof.
  split; [|split].
  - apply updateKeyDisplay_effects.
  - unfold renderedImage, iconFileName.
    destruct (currentPrintState status) as [c|]; simpl.
    + destruct (String.eqb_spec c "standby") as [->|]; simpl.
      { split; [done|]. intros H. by inversion H. }
      destruct (String.eqb_spec c "idle") as [->|]; simpl.
      { split; [done|]. intros H. inversion H as [|? ? _ H']. by inversion H'. }
      destruct (String.eqb_spec c "printing") as [->|]; simpl.
      { split; [done|]. intros H. do 2 (inversion H as [|? ? _ H']; clear H; rename H' into H).
        by inversion H. }
      destruct (String.eqb_spec c "paused") as [->|]; simpl.
      { split; [done|]. intros H. do 3 (inversion H as [|? ? _ H']; clear H; rename H' into H).
        by inversion H. }
      destruct (String.eqb_spec c "complete") as [->|]; simpl.
      { split; [done|]. intros H. do 4 (inversion H as [|? ? _ H']; clear H; rename H' into H).
        by inversion H. }
      destruct (String.eqb_spec c "error") as [->|]; simpl.
      { split; [done|]. intros H. do 5 (inversion H as [|? ? _ H']; clear H; rename H' into H).
        by inversion H. }
      split; [|done]. intros _. repeat constructor; congruence.
    + split; [|done]. intros _. repeat constructor; done.
  - unfold renderedImage, iconFileName.
    repeat constructor; intros ->; simpl; eauto.
Qed.

(** ** The layer line *)

Lemma isDigit_not_space c : isDigit c = true → isSpace c = false.
Proof.
  unfold isDigit, isSpace. intros [H1 H2]%andb_true_iff.
  apply N.leb_le in H1. apply N.leb_le in H2.
  apply orb_false_iff. split.
  - apply andb_false_iff. right. apply N.leb_gt. lia.
  - apply N.eqb_neq. lia.
Qed.

Lemma isSpace_not_digit c : isSpace c = true → isDigit c = false.
Proof.
  intros H. destruct (isDigit c) eqn:E; [|done].
  apply isDigit_not_space in E. congruence.
Qed.

Lemma append_empty_r (a : string) : a +:+ "" = a.
Proof.
  induction a as [|c a IH]; [done|].
  change (String c (a +:+ "") = String c a). by rewrite IH.
Qed.

Lemma append_assoc (a b c : string) : (a +:+ b) +:+ c = a +:+ b +:+ c.
Proof.
  induction a as [|x a IH]; [done|].
  change (String x ((a +:+ b) +:+ c) = String x (a +:+ b +:+ c)). by rewrite IH.
Qed.

Lemma takeDigits_digits s : digitsOnly (takeDigits s).1 = true.
Proof.
  induction s as [|c r IH]; simpl; [done|].
  destruct (isDigit c) eqn:E; [|done].
  destruct (takeDigits r). simpl in *. by rewrite E.
Qed.

Lemma takeDigits_append n rest :
  digitsOnly n = true → startsWithDigit rest = false →
  takeDigits (n +:+ rest) = (n, rest).
Proof.
  intros Hn Hrest. induction n as [|c n IH]; simpl in *.
  - destruct rest as [|c r]; simpl in *; [done | by rewrite Hrest].
  - apply andb_true_iff in Hn as [-> Hn]. by rewrite IH.
Qed.

Lemma skipSpaces_append sp rest :
  spacesOnly sp = true → skipSpaces (sp +:+ rest) = skipSpaces rest.
Proof.
  induction sp as [|c sp IH]; simpl; [done|].
  intros [-> H]%andb_true_iff. auto.
Qed.

(** No white space of two or of three bytes starts with an ASCII byte. *)
Lemma skipSpaces_ascii c r :
  isSpace c = false → (code c < 128)%N → skipSpaces (String c r) = String c r.
Proof.
  intros Hc Hlt. simpl. rewrite Hc.
  assert (isSpace2 c = λ _, false) as H2.
  { unfold isSpace2. by replace (code c =? 194)%N with false by (symmetry; apply N.eqb_neq; lia). }
  assert (isSpace3 c = λ _ _, false) as H3.
  { unfold isSpace3.
    by repeat (match goal with
               | |- context [(code c =? ?k)%N] =>
                   replace (code c =? k)%N with false by (symmetry; apply N.eqb_neq; lia)
               end). }
  destruct r as [|c2 [|c3 r]]; [done| |]; rewrite H2; [done|]. by rewrite H3.
Qed.

Lemma isDigit_ascii c : isDigit c = true → (code c < 128)%N.
Proof. unfold isDigit. intros [_ H%N.leb_le]%andb_true_iff. lia. Qed.

Lemma skipSpaces_digits n rest :
  digitsOnly n = true → n ≠ "" → skipSpaces (n +:+ rest) = n +:+ rest.
Proof.
  destruct n as [|c n]; [done|].
  intros [Hc _]%andb_true_iff _.
  change (String c n +:+ rest) with (String c (n +:+ rest)).
  apply skipSpaces_ascii; [by apply isDigit_not_space | by apply isDigit_ascii].
Qed.

Lemma startsWithDigit_spaces sp rest :
  spacesOnly sp = true → startsWithDigit rest = false →
  startsWithDigit (sp +:+ rest) = false.
Proof.
  destruct sp as [|c sp]; simpl; [done|].
  intros [Hc _]%andb_true_iff _. by apply isSpace_not_digit.
Qed.

Lemma dropLiteral_word p word rest :
  toLowerCase word = p → dropLiteral p (word +:+ rest) = Some rest.
Proof.
  revert p. induction word as [|c word IH]; intros p <-; simpl.
  - by destruct rest.
  - rewrite Ascii.eqb_refl. by apply IH.
Qed.

Lemma dropLiteral_prefix p s r :
  dropLiteral p s = Some r → String.prefix p (toLowerCase s) = true.
Proof.
  revert s. induction p as [|a p IH]; intros s; simpl.
  - by destruct (toLowerCase s).
  - destruct s as [|b s]; simpl; [done|].
    destruct (Ascii.eqb_spec a (toLowerChar b)) as [->|]; [|done].
    intros H. destruct (ascii_dec _ _); [by eapply IH | done].
Qed.

Lemma matchLayerAt_literal s groups :
  matchLayerAt s = Some groups → ∃ r, dropLiteral "layer" s = Some r.
Proof.
  unfold matchLayerAt. destruct (dropLiteral "layer" s) as [r|]; [eauto | done].
Qed.

(** The test [message.toLowerCase().includes("layer")] never turns down a
    message the pattern matches. *)
Lemma matchLayer_includes s groups :
  matchLayer s = Some groups →
  truthyString s = true ∧ includes (toLowerCase s) "layer" = true.
Proof.
  induction s as [|c s IH]; [done|].
  intros H. split; [done|].
  change (String.prefix "layer" (toLowerCase (String c s))
          || includes (toLowerCase s) "layer" = true).
  simpl in H. destruct (matchLayerAt (String c s)) as [g|] eqn:E.
  - apply matchLayerAt_literal in E as [r E].
    by rewrite (dropLiteral_prefix _ _ _ E).
  - apply IH in H as [_ ->]. apply orb_true_r.
Qed.

Lemma matchLayerAt_groups s current total :
  matchLayerAt s = Some (current, total) →
  (digitsOnly current = true ∧ current ≠ "") ∧ (digitsOnly total = true ∧ total ≠ "").
Proof.
  unfold matchLayerAt. destruct (dropLiteral "layer" s) as [r|]; simpl; [|done].
  pose proof (takeDigits_digits (skipSpaces r)) as H1.
  destruct (takeDigits (skipSpaces r)) as [n r1]. simpl in H1.
  destruct (truthyString n) eqn:En; [|done].
  destruct (skipSpaces r1) as [|c r2]; [done|].
  destruct (Ascii.eqb_spec c "/") as [->|Hc].
  - pose proof (takeDigits_digits (skipSpaces r2)) as H2.
    destruct (takeDigits (skipSpaces r2)) as [m r3]. simpl in H2.
    destruct (truthyString m) eqn:Em; [|done].
    intros [= <- <-]. by rewrite <- !truthyString_iff.
  - destruct c as [[] [] [] [] [] [] [] []]; done.
Qed.

Lemma matchLayer_groups s current total :
  matchLayer s = Some (current, total) →
  (digitsOnly current = true ∧ current ≠ "") ∧ (digitsOnly total = true ∧ total ≠ "").
Proof.
  induction s as [|c s IH]; simpl.
  - done.
  - destruct (matchLayerAt (String c s)) as [[]|] eqn:E; [|done].
    intros [= <- <-]. by eapply matchLayerAt_groups.
Qed.

Lemma layerText_iff (status : MoonrakerPrinterObjects) (line : string) :
  let layers := print_stats status ≫= info in
  layerText status = Some line ↔
  (∃ current total,
     layers ≫= current_layer = Some current ∧ layers ≫= total_layer = Some total
     ∧ line = "L:" +:+ Number_toString current +:+ "/" +:+ Number_toString total)
  ∨ ((layers ≫= current_layer = None ∨ layers ≫= total_layer = None)
     ∧ ∃ ds current total,
         display_status status = Some ds
         ∧ matchLayer (message ds) = Some (current, total)
         ∧ line = "L:" +:+ current +:+ "/" +:+ total).
Proof.
  intros layers. unfold layerText. fold layers.
  assert (Hmsg : (ds ← display_status status;
                  if truthyString (message ds) && includes (toLowerCase (message ds)) "layer"
                  then '(current, total) ← matchLayer (message ds);
                       Some ("L:" +:+ current +:+ "/" +:+ total)
                  else None) = Some line ↔
                 ∃ ds current total,
                   display_status status = Some ds
                   ∧ matchLayer (message ds) = Some (current, total)
                   ∧ line = "L:" +:+ current +:+ "/" +:+ total).
  { destruct (display_status status) as [ds|]; simpl.
    - destruct (matchLayer (message ds)) as [[a b]|] eqn:E.
      + destruct (matchLayer_includes _ _ E) as [-> ->]. simpl. split.
        * intros [= <-]. eauto 6.
        * intros (? & ? & ? & [= <-] & Hm & ->). rewrite E in Hm. by simplify_eq.
      + split; [by destruct (_ && _) | intros (? & ? & ? & [= <-] & Hm & _); congruence].
    - split; [done | by intros (? & ? & ? & ? & _)]. }
  destruct (layers ≫= current_layer) as [c|], (layers ≫= total_layer) as [t|].
  - split; [intros [= <-]; left; eauto|].
    intros [(? & ? & [= <-] & [= <-] & ->) | [[|] _]]; done.
  - rewrite Hmsg. split; [eauto | by intros [(? & ? & _ & ? & _) | [_ ?]]].
  - rewrite Hmsg. split; [eauto | by intros [(? & ? & ? & _) | [_ ?]]].
  - rewrite Hmsg. split; [eauto | by intros [(? & ? & ? & _) | [_ ?]]].
Qed.

Lemma layerText_truthy status text : layerText status = Some text → truthyString text = true.
Proof.
  intros [(? & ? & _ & _ & ->) | (_ & ? & ? & ? & _ & _ & ->)]%layerText_iff; done.
Qed.

(** X4. For a snapshot of the declared types the layer line is produced
    exactly when the layer toggle is on, the lower-cased state is printing or
    paused, and either both layer counts are in the snapshot (the line is then
    L:current/total from the counts, whatever the status message says) or one
    is missing and the pattern matches the status message (the line is then
    L: and the two matched groups). The pattern is the one of the code: the
    word in any letter case, ASCII digits, and between them any white space
    of ECMAScript, Unicode white space included. The test for the word layer
    adds nothing to the pattern. *)
Theorem layer_line_iff (status : MoonrakerPrinterObjects) (s : MoonrakerSettings)
    (line : string) :
  let layers := print_stats status ≫= info in
  layerLine status s = Some line ↔
  displayLayerInfo s = Some true
  ∧ (currentPrintState status = Some "printing" ∨ currentPrintState status = Some "paused")
  ∧ ((∃ current total,
        layers ≫= current_layer = Some current ∧ layers ≫= total_layer = Some total
        ∧ line = "L:" +:+ Number_toString current +:+ "/" +:+ Number_toString total)
     ∨ ((layers ≫= current_layer = None ∨ layers ≫= total_layer = None)
        ∧ ∃ ds current total,
            display_status status = Some ds
            ∧ matchLayer (message ds) = Some (current, total)
            ∧ line = "L:" +:+ current +:+ "/" +:+ total)).
Proof.
  intros layers. subst layers. rewrite <- (layerText_iff status line).
  unfold layerLine, on. rewrite <- printingOrPaused_iff.
  destruct (displayLayerInfo s) as [[]|]; simpl.
  - destruct (printingOrPaused status).
    + destruct (layerText status) as [text|] eqn:E; simpl.
      * rewrite (layerText_truthy _ _ E). tauto.
      * split; [done | by intros (_ & _ & ?)].
    + split; [done | by intros (_ & ? & _)].
  - split; [done | by intros (? & _)].
  - split; [done | by intros (? & _)].
Qed.

(** X5. What the pattern takes out of a status message are two non-empty
    strings of decimal digits: a layer line read from the message is always
    L:digits/digits. *)
Theorem message_layers_are_digits (text current total : string) :
  matchLayer text = Some (current, total) →
  digitsOnly current = true ∧ current ≠ ""
  ∧ digitsOnly total = true ∧ total ≠ ""
  ∧ includes (toLowerCase text) "layer" = true.
Proof.
  intros H. destruct (matchLayer_groups _ _ _ H) as [[? ?] [? ?]].
  destruct (matchLayer_includes _ _ H) as [_ ?]. done.
Qed.

Lemma message_layers_are_digits_witness :
  matchLayer "Printing LAYER 7 /  40" = Some ("7", "40")
  ∧ digitsOnly "40" = true.
Proof.
  split; [reflexivity|].
  exact (proj1 (proj2 (proj2 (message_layers_are_digits
           "Printing LAYER 7 /  40" "7" "40" eq_refl)))).
Defined.

Lemma matchLayer_at s groups : matchLayerAt s = Some groups → matchLayer s = Some groups.
Proof. destruct s; simpl; intros H; [done | by rewrite H]. Qed.

(** X6. Writing and reading the layers agree: a message made of the word
    layer in any letter case, a count, a slash and a count, with any amount of
    white space between them, is read back as exactly the two counts, and a
    printing snapshot without explicit counts shows them as L:current/total. *)
Theorem message_layers_round_trip (word sp1 current sp2 sp3 total rest : string) :
  toLowerCase word = "layer" →
  spacesOnly sp1 = true → spacesOnly sp2 = true → spacesOnly sp3 = true →
  digitsOnly current = true → current ≠ "" →
  digitsOnly total = true → total ≠ "" →
  startsWithDigit rest = false →
  let text := word +:+ sp1 +:+ current +:+ sp2 +:+ "/" +:+ sp3 +:+ total +:+ rest in
  matchLayer text = Some (current, total)
  ∧ layerText (layersByMessage text) = Some ("L:" +:+ current +:+ "/" +:+ total).
Proof.
  intros Hword Hsp1 Hsp2 Hsp3 Hcur Hcur' Htot Htot' Hrest text.
  assert (Hat : matchLayerAt text = Some (current, total)).
  { unfold matchLayerAt, text. rewrite (dropLiteral_word "layer") by done. simpl.
    rewrite skipSpaces_append, skipSpaces_digits by done.
    rewrite takeDigits_append; [|done|by apply startsWithDigit_spaces].
    rewrite (proj2 (truthyString_iff current)) by done.
    rewrite skipSpaces_append by done.
    change ("/" +:+ sp3 +:+ total +:+ rest) with (String "/" (sp3 +:+ total +:+ rest)).
    rewrite skipSpaces_ascii by (reflexivity || (vm_compute; reflexivity)).
    rewrite skipSpaces_append, skipSpaces_digits by done.
    rewrite takeDigits_append by done.
    by rewrite (proj2 (truthyString_iff total)). }
  assert (Hmatch : matchLayer text = Some (current, total)).
  { by apply matchLayer_at. }
  split; [done|].
  unfold layerText, layersByMessage. simpl.
  destruct (matchLayer_includes _ _ Hmatch) as [-> ->]. simpl. by rewrite Hmatch.
Qed.

Lemma message_layers_round_trip_witness :
  toLowerCase "LAYER" = "layer"
  ∧ matchLayer ("LAYER" +:+ " " +:+ "12" +:+ "" +:+ "/" +:+ "  " +:+ "340" +:+ " done")
    = Some ("12", "340").
Proof.
  split; [reflexivity|].
  exact (proj1 (message_layers_round_trip "LAYER" " " "12" "" "  " "340" " done"
                  eq_refl eq_refl eq_refl eq_refl eq_refl ltac:(discriminate)
                  eq_refl ltac:(discriminate) eq_refl)).
Defined.

(** ** The endpoint and the cycle *)

Lemma startsWith_append s p q : startsWith s p = true → startsWith (s +:+ q) p = true.
Proof.
  intros [r ->]%startsWith_iff. apply startsWith_iff. exists (r +:+ q).
  apply append_assoc.
Qed.

(** X7. The URL of every request starts with [http://] or [https://] and
    ends with the fixed query path, whatever the settings are; adding the
    scheme twice adds it once. *)
Theorem endpoint_has_scheme (s : MoonrakerSettings) (url : string) :
  startsWith (endpoint s) "http://" || startsWith (endpoint s) "https://" = true
  ∧ endsWith (endpoint s) queryPath = true
  ∧ withScheme (withScheme url) = withScheme url.
Proof.
  assert (Hscheme : ∀ u, startsWith (withScheme u) "http://"
                         || startsWith (withScheme u) "https://" = true).
  { intros u. unfold withScheme.
    destruct (startsWith u "http://") eqn:E1; simpl; [by rewrite E1|].
    destruct (startsWith u "https://") eqn:E2; simpl; [by rewrite E1, E2|].
    apply orb_true_iff. left. apply startsWith_iff. by exists u. }
  split; [|split].
  - unfold endpoint. specialize (Hscheme (withPort s)).
    apply orb_true_iff in Hscheme as [H|H]; apply orb_true_iff; [left | right];
      by apply startsWith_append.
  - apply endsWith_append.
  - specialize (Hscheme url). unfold withScheme at 1.
    apply orb_true_iff in Hscheme as [-> | ->]; [done | by rewrite andb_false_r].
Qed.

Lemma fetchCalls_app (l1 l2 : list Effect) :
  fetchCalls (l1 ++ l2) = (fetchCalls l1 + fetchCalls l2)%nat.
Proof. unfold fetchCalls. by rewrite filter_app, length_app. Qed.

(** What the cycle does after its response: one of six shapes. *)
Lemma afterFetch_shapes actionId s net :
  (∃ title reason,
     (afterFetch actionId s net).1
     = [ESetTitle actionId title; ELogError reason])
  ∨ (∃ title reason,
       (afterFetch actionId s net).1
       = [ESetTitle actionId title; ESetTitle actionId fetchErrorTitle; ELogError reason])
  ∨ (∃ status,
       (afterFetch actionId s net).1
       = [ESetTitle actionId (join nl (titleLines status s));
          ESetImage actionId (renderedImage status)]).
Proof.
  unfold afterFetch, tryCatch, mbind, Async_bind.
  destruct net as [r|reason]; cbn -[updateKeyDisplay]; [|left; eauto].
  destruct (Response.ok r); cbn -[updateKeyDisplay].
  - destruct (Response.json r) as [[| |status]|reason]; cbn -[updateKeyDisplay];
      [left; eauto ..| |left; eauto].
    rewrite updateKeyDisplay_effects. right. right. eauto.
  - destruct (Response.text r); cbn; [left; eauto | right; left; eauto].
Qed.

Lemma afterFetch_no_fetch actionId s net : fetchCalls (afterFetch actionId s net).1 = 0%nat.
Proof.
  destruct (afterFetch_shapes actionId s net)
    as [(? & ? & ->) | [(? & ? & ->) | (? & ->)]]; done.
Qed.

Lemma afterFetch_paints actionId s net :
  Forall (paintsOnly actionId) (afterFetch actionId s net).1
  ∧ (1 <= length (titles (afterFetch actionId s net).1))%nat.
Proof.
  destruct (afterFetch_shapes actionId s net)
    as [(? & ? & ->) | [(? & ? & ->) | (? & ->)]]; simpl;
    (split; [repeat constructor | lia]).
Qed.

(** X8. A cycle always ends by returning, whatever the settings and whatever
    the network does; it presents at least one title, paints no key but its
    own, and calls [fetch] once when the settings are valid and not at all
    when they are not: there is no retry inside a cycle. *)
Theorem cycle_always_presents (actionId : string) (s : MoonrakerSettings)
    (net : Awaited Response.t) :
  (fetchDataAndUpdateKey actionId s net).2 = Returned ()
  ∧ (1 <= length (titles (fetchDataAndUpdateKey actionId s net).1))%nat
  ∧ Forall (paintsOnly actionId) (fetchDataAndUpdateKey actionId s net).1
  ∧ fetchCalls (fetchDataAndUpdateKey actionId s net).1
    = (if isValidSettings s then 1 else 0)%nat.
Proof.
  split; [apply fetchDataAndUpdateKey_returns|].
  destruct (isValidSettings s) eqn:Hv.
  - rewrite fetchDataAndUpdateKey_valid by done.
    destruct (afterFetch_paints actionId s net) as [Hp Ht].
    split; [exact Ht|]. split; [by constructor|].
    change (S (fetchCalls (afterFetch actionId s net).1) = 1%nat).
    by rewrite afterFetch_no_fetch.
  - rewrite fetchDataAndUpdateKey_invalid by done. simpl.
    split; [lia|]. split; [by repeat constructor | done].
Qed.

(** X9. Fetch and render compose: with valid settings, a response with a 2xx
    status whose body decodes to a status object makes the cycle do exactly
    three things, in this order: the request, the title joined from the lines
    of the reducer, and the image of the state. The response text is not
    read and nothing is logged. *)
Theorem successful_cycle (actionId : string) (s : MoonrakerSettings) (r : Response.t)
    (status : MoonrakerPrinterObjects) :
  isValidSettings s = true →
  (200 <= Response.status r <= 299)%N →
  Response.json r = Resolved (Status status) →
  fetchDataAndUpdateKey actionId s (Resolved r)
  = ([EFetch (endpoint s) (requestHeaders s);
      ESetTitle actionId (join nl (titleLines status s));
      ESetImage actionId (renderedImage status)], Returned ()).
Proof.
  intros Hv [H1 H2] Hjson.
  pose proof (fetchDataAndUpdateKey_valid actionId s (Resolved r) Hv) as Heffects.
  pose proof (fetchDataAndUpdateKey_returns actionId s (Resolved r)) as Hret.
  assert (Hafter : (afterFetch actionId s (Resolved r)).1
                   = [ESetTitle actionId (join nl (titleLines status s));
                      ESetImage actionId (renderedImage status)]).
  { unfold afterFetch, tryCatch, mbind, Async_bind. cbn -[updateKeyDisplay].
    assert (Response.ok r = true) as ->.
    { unfold Response.ok. apply andb_true_iff. split; by apply N.leb_le. }
    cbn -[updateKeyDisplay]. rewrite Hjson. cbn -[updateKeyDisplay].
    by rewrite updateKeyDisplay_effects. }
  rewrite Hafter in Heffects.
  destruct (fetchDataAndUpdateKey actionId s (Resolved r)) as [effects c]. simpl in *.
  by rewrite Heffects, Hret.
Qed.

Lemma successful_cycle_witness :
  isValidSettings sampleSettings = true
  ∧ titles (fetchDataAndUpdateKey "key" sampleSettings okResponse).1
    = ["Printing" +:+ nl +:+ "B:60/60°" +:+ nl +:+ "H:204/205°" +:+ nl +:+ "12%"
       +:+ nl +:+ "L:12/100"].
Proof.
  assert (Hv : isValidSettings sampleSettings = true) by (vm_compute; reflexivity).
  split; [exact Hv|]. unfold okResponse.
  rewrite (successful_cycle "key" sampleSettings
             (response 200 "OK" (Resolved "") (Resolved (Status roundTripSnapshot)))
             roundTripSnapshot Hv
             ltac:(split; apply N.leb_le; reflexivity) eq_refl).
  vm_compute. reflexivity.
Defined.

(** ** The scheduler: what every reachable world satisfies *)

Section Reachable.

Implicit Types (w : World) (actionId a b : string) (s : MoonrakerSettings) (t : Timeout).

Lemma wf_initial : wellFormed initialWorld.
Proof. split; [intros t iv H | intros a t H]; done. Qed.

Lemma wf_withInFlight w l : wellFormed w → wellFormed (withInFlight w l).
Proof. intros [HA HB]. split; [exact HA | exact HB]. Qed.

Lemma wf_insert w a st :
  timerId st = None ∨ timerId st = storedTimer w a →
  wellFormed w → wellFormed (withStates w (<[a := st]> (actionStates w))).
Proof.
  intros Hst [HA HB]. split; [exact HA|].
  intros b t. rewrite storedTimer_insert.
  destruct (decide (a = b)) as [<-|]; [|apply HB].
  destruct Hst as [-> | ->]; [done | apply HB].
Qed.

Lemma wf_delete w a :
  wellFormed w → wellFormed (withStates w (delete a (actionStates w))).
Proof.
  intros [HA HB]. split; [exact HA|].
  intros b t. unfold storedTimer. simpl. rewrite lookup_delete.
  destruct (decide (a = b)); [done | apply HB].
Qed.

Lemma wf_stop a w : wellFormed w → wellFormed (stopPollingForAction a w).
Proof.
  intros [HA HB]. unfold stopPollingForAction.
  destruct (actionStates w !! a) as [st|] eqn:Hst; [|done].
  destruct (timerId st) as [t|] eqn:Ht; [|done].
  assert (Hstored : storedTimer w a = Some t) by (unfold storedTimer; by rewrite Hst).
  destruct (HB a t Hstored) as (iv & Hiv & Hown).
  split.
  - intros t' iv'. simpl. rewrite lookup_delete.
    case_decide; [done | apply HA].
  - intros b t'. unfold storedTimer. simpl. rewrite lookup_insert.
    destruct (decide (a = b)) as [<-|Hab]; [done|].
    intros Hb. destruct (HB b t' Hb) as (iv' & Hiv' & Hown').
    exists iv'. split; [|done]. rewrite lookup_delete.
    case_decide; [subst; congruence | done].
Qed.

Lemma wf_startPolling a s w : wellFormed w → wellFormed (startPolling a s w).1.
Proof.
  intros [HA HB]. unfold startPolling, setInterval. simpl.
  set (iv0 := {| ivAction := a; ivDelay := _ |}).
  assert (Hold : ∀ b t, storedTimer w b = Some t →
                        ∃ iv, <[nextTimeout w := iv0]> (intervals w) !! t = Some iv
                              ∧ ivAction iv = b).
  { intros b t Hb. destruct (HB b t Hb) as (iv & Hiv & Hown).
    exists iv. split; [|done]. rewrite lookup_insert_ne; [done|].
    apply HA in Hiv. lia. }
  assert (Hlt : ∀ t iv, <[nextTimeout w := iv0]> (intervals w) !! t = Some iv →
                        (t < S (nextTimeout w))%nat).
  { intros t iv. rewrite lookup_insert.
    destruct (decide (nextTimeout w = t)) as [<-|]; [lia|].
    intros H%HA. lia. }
  destruct (actionStates w !! a) as [st|]; simpl; (split; [exact Hlt|]).
  - intros b t. unfold storedTimer. simpl. rewrite lookup_insert.
    destruct (decide (a = b)) as [<-|]; [|apply Hold].
    simpl. intros [= <-]. exists iv0. by rewrite lookup_insert_eq.
  - exact Hold.
Qed.

Lemma wf_resume k a s w : wellFormed w → wellFormed (resume k a s w).1.
Proof. destruct k; [done | apply wf_startPolling]. Qed.

Lemma wf_beginCycle a s k w : wellFormed w → wellFormed (beginCycle a s k w).1.
Proof.
  intros Hw. unfold beginCycle. destruct (isValidSettings s); [by apply wf_withInFlight|].
  pose proof (wf_resume k a s w Hw). by destruct (resume k a s w).
Qed.

Lemma wf_settleCycle i net w : wellFormed w → wellFormed (settleCycle i net w).1.
Proof.
  intros Hw. unfold settleCycle. destruct (inFlight w !! i) as [f|]; [|done].
  rewrite afterFetch_returns.
  pose proof (wf_resume (flThen f) (flAction f) (flSettings f) _
                (wf_withInFlight w (delete i (inFlight w)) Hw)).
  by destruct (resume _ _ _ _).
Qed.

Lemma wf_apply a s w : wellFormed w → wellFormed (applySettingsAndStartPolling a s w).1.
Proof.
  intros Hw. unfold applySettingsAndStartPolling.
  destruct (isValidSettings s); [|by apply wf_stop].
  by apply wf_beginCycle, wf_stop.
Qed.

Lemma wf_step w ev : wellFormed w → wellFormed (step w ev).1.
Proof.
  intros Hw. destruct ev as [a payload|a|a newSettings|a|t|i net]; simpl.
  - apply wf_apply, wf_insert; [by left | done].
  - by apply wf_delete, wf_stop.
  - unfold onDidReceiveSettings. apply wf_apply.
    destruct (actionStates w !! a) as [st|] eqn:Hst; (apply wf_insert; [|done]).
    + right. unfold storedTimer. by rewrite Hst.
    + by left.
  - unfold onKeyDown. destruct (actionStates w !! a); [by apply wf_beginCycle | done].
  - destruct (intervals w !! t) as [iv|]; [|done]. unfold intervalCallback.
    destruct (actionStates w !! ivAction iv); [|done].
    destruct (decide _); [by apply wf_beginCycle | done].
  - by apply wf_settleCycle.
Qed.

Lemma wf_run evs w : wellFormed w → wellFormed (run w evs).1.
Proof.
  revert w. induction evs as [|ev evs IH]; intros w Hw; simpl; [done|].
  pose proof (wf_step w ev Hw) as Hstep.
  destruct (step w ev) as [w1 e1]. specialize (IH w1 Hstep).
  by destruct (run w1 evs).
Qed.

(** X10. In every world the events can lead to, the timer stored in a record
    is a live interval, its callback belongs to that instance, its identity
    is one already handed out, and no other instance stores it. *)
Theorem stored_timer_is_live (evs : list Event) (actionId : string) (t : Timeout) :
  storedTimer (run initialWorld evs).1 actionId = Some t →
  (∃ iv, intervals (run initialWorld evs).1 !! t = Some iv ∧ ivAction iv = actionId)
  ∧ (t < nextTimeout (run initialWorld evs).1)%nat
  ∧ (∀ other, storedTimer (run initialWorld evs).1 other = Some t → other = actionId).
Proof.
  destruct (wf_run evs initialWorld wf_initial) as [HA HB].
  intros Ht. destruct (HB _ _ Ht) as (iv & Hiv & Hown).
  split; [eauto|]. split; [by eapply HA|].
  intros other Hother. destruct (HB _ _ Hother) as (iv' & Hiv' & Hown'). congruence.
Qed.

Lemma stored_timer_is_live_witness :
  storedTimer (run initialWorld twoKeysEvents).1 "other" = Some 1%nat
  ∧ (1 < nextTimeout (run initialWorld twoKeysEvents).1)%nat.
Proof.
  assert (H : storedTimer (run initialWorld twoKeysEvents).1 "other" = Some 1%nat)
    by (vm_compute; reflexivity).
  split; [exact H|].
  exact (proj1 (proj2 (stored_timer_is_live twoKeysEvents "other" 1%nat H))).
Defined.

Lemma sameFor_refl b w : sameFor b w w.
Proof. by split. Qed.

Lemma sameFor_trans b w1 w2 w3 : sameFor b w1 w2 → sameFor b w2 w3 → sameFor b w1 w3.
Proof.
  intros [H1 H1'] [H2 H2']. split; [congruence|].
  intros t iv Hiv. rewrite (H2' t iv Hiv). by apply H1'.
Qed.

Lemma sameFor_withInFlight b w l : sameFor b w (withInFlight w l).
Proof. by split. Qed.

Lemma sameFor_insert a b st w :
  a ≠ b → sameFor b w (withStates w (<[a := st]> (actionStates w))).
Proof. intros Hab. split; [simpl; by rewrite lookup_insert_ne | done]. Qed.

Lemma sameFor_delete a b w :
  a ≠ b → sameFor b w (withStates w (delete a (actionStates w))).
Proof. intros Hab. split; [simpl; by rewrite lookup_delete_ne | done]. Qed.

Lemma sameFor_stop a b w :
  a ≠ b → wellFormed w → sameFor b w (stopPollingForAction a w).
Proof.
  intros Hab [HA HB]. unfold stopPollingForAction.
  destruct (actionStates w !! a) as [st|] eqn:Hst; [|apply sameFor_refl].
  destruct (timerId st) as [t|] eqn:Ht; [|apply sameFor_refl].
  assert (Hstored : storedTimer w a = Some t) by (unfold storedTimer; by rewrite Hst).
  destruct (HB a t Hstored) as (iv & Hiv & Hown).
  split; [simpl; by rewrite lookup_insert_ne|].
  intros t' iv' Hown'. simpl. rewrite lookup_delete.
  case_decide; [subst t'|done]. split; [done|]. intros H. congruence.
Qed.

Lemma sameFor_startPolling a b s w :
  a ≠ b → wellFormed w → sameFor b w (startPolling a s w).1.
Proof.
  intros Hab [HA HB]. unfold startPolling, setInterval. simpl.
  set (iv0 := {| ivAction := a; ivDelay := _ |}).
  assert (Hiv : ∀ t iv, ivAction iv = b →
            (<[nextTimeout w := iv0]> (intervals w) !! t = Some iv
             ↔ intervals w !! t = Some iv)).
  { intros t iv Hown. rewrite lookup_insert. case_decide; [subst t|done]. split.
    - intros [= <-]. by destruct Hab.
    - intros H%HA. lia. }
  destruct (actionStates w !! a) as [st|]; simpl; (split; [|exact Hiv]).
  - simpl. by rewrite lookup_insert_ne.
  - done.
Qed.

Lemma sameFor_resume k a b s w :
  a ≠ b → wellFormed w → sameFor b w (resume k a s w).1.
Proof. destruct k; [intros; apply sameFor_refl | apply sameFor_startPolling]. Qed.

Lemma sameFor_beginCycle k a b s w :
  a ≠ b → wellFormed w → sameFor b w (beginCycle a s k w).1.
Proof.
  intros Hab Hw. unfold beginCycle.
  destruct (isValidSettings s); [apply sameFor_withInFlight|].
  pose proof (sameFor_resume k a b s w Hab Hw). by destruct (resume k a s w).
Qed.

Lemma sameFor_apply a b s w :
  a ≠ b → wellFormed w → sameFor b w (applySettingsAndStartPolling a s w).1.
Proof.
  intros Hab Hw. unfold applySettingsAndStartPolling.
  destruct (isValidSettings s); [|by apply sameFor_stop].
  eapply sameFor_trans; [by apply (sameFor_stop a)|].
  by apply sameFor_beginCycle, wf_stop.
Qed.

Lemma sameFor_step b w ev :
  wellFormed w → eventAction w ev ≠ Some b → sameFor b w (step w ev).1.
Proof.
  intros Hw Hev. destruct ev as [a payload|a|a newSettings|a|t|i net]; simpl in *.
  - assert (a ≠ b) by congruence.
    eapply sameFor_trans; [by apply (sameFor_insert a)|].
    apply sameFor_apply; [done|]. apply wf_insert; [by left | done].
  - assert (a ≠ b) by congruence. unfold onWillDisappear. simpl.
    eapply sameFor_trans; [by apply (sameFor_stop a)|]. by apply sameFor_delete.
  - assert (a ≠ b) by congruence. unfold onDidReceiveSettings.
    destruct (actionStates w !! a) as [st|] eqn:Hst.
    + eapply sameFor_trans; [by apply (sameFor_insert a)|].
      apply sameFor_apply; [done|]. apply wf_insert; [|done].
      right. unfold storedTimer. by rewrite Hst.
    + eapply sameFor_trans; [by apply (sameFor_insert a)|].
      apply sameFor_apply; [done|]. apply wf_insert; [by left | done].
  - assert (a ≠ b) by congruence. unfold onKeyDown.
    destruct (actionStates w !! a); [by apply sameFor_beginCycle | apply sameFor_refl].
  - destruct (intervals w !! t) as [iv|]; [|apply sameFor_refl]. simpl in Hev.
    assert (ivAction iv ≠ b) by congruence. unfold intervalCallback.
    destruct (actionStates w !! ivAction iv); [|apply sameFor_refl].
    destruct (decide _); [by apply sameFor_beginCycle | apply sameFor_refl].
  - unfold settleCycle. destruct (inFlight w !! i) as [f|]; [|apply sameFor_refl].
    simpl in Hev. assert (flAction f ≠ b) by congruence.
    rewrite afterFetch_returns.
    pose proof (sameFor_resume (flThen f) (flAction f) b (flSettings f)
                  (withInFlight w (delete i (inFlight w))) ltac:(done)
                  (wf_withInFlight _ _ Hw)) as H'.
    destruct (resume _ _ _ _). simpl in *.
    eapply sameFor_trans; [apply sameFor_withInFlight | exact H'].
Qed.

(** X11. Instances are independent: in every world the events can lead to, an
    event about one instance (its appearance, disappearance, settings change
    or key press, a tick of one of its timers, the settling of one of its
    fetches) leaves the record of every other instance and the live intervals
    of every other instance as they were. *)
Theorem other_instances_untouched (evs : list Event) (ev : Event) (other : string) :
  eventAction (run initialWorld evs).1 ev ≠ Some other →
  actionStates (step (run initialWorld evs).1 ev).1 !! other
  = actionStates (run initialWorld evs).1 !! other
  ∧ ∀ t iv, ivAction iv = other →
            (intervals (step (run initialWorld evs).1 ev).1 !! t = Some iv
             ↔ intervals (run initialWorld evs).1 !! t = Some iv).
Proof.
  intros Hev. apply (sameFor_step other); [|done]. apply wf_run, wf_initial.
Qed.

Lemma other_instances_untouched_witness :
  eventAction (run initialWorld twoKeysEvents).1 (WillDisappear "key") ≠ Some "other"
  ∧ storedTimer (step (run initialWorld twoKeysEvents).1 (WillDisappear "key")).1 "other"
    = Some 1%nat.
Proof.
  assert (H : eventAction (run initialWorld twoKeysEvents).1 (WillDisappear "key")
              ≠ Some "other") by discriminate.
  split; [exact H|]. unfold storedTimer.
  rewrite (proj1 (other_instances_untouched twoKeysEvents (WillDisappear "key") "other" H)).
  vm_compute. reflexivity.
Defined.

End Reachable.

(** ** The scheduler: the lifecycle, step by step *)

Section Lifecycle.

Implicit Types (w : World) (actionId a b : string) (s : MoonrakerSettings) (t : Timeout).

Lemma stop_settings a b w :
  settings <$> actionStates (stopPollingForAction a w) !! b
  = settings <$> actionStates w !! b.
Proof.
  unfold stopPollingForAction.
  destruct (actionStates w !! a) as [st|] eqn:Hst; [|done].
  destruct (timerId st); [|done]. simpl. rewrite lookup_insert.
  case_decide; [subst b; by rewrite Hst | done].
Qed.

Lemma stop_noop a w : storedTimer w a = None → stopPollingForAction a w = w.
Proof.
  unfold storedTimer, stopPollingForAction.
  destruct (actionStates w !! a) as [st|]; simpl; [|done]. by intros ->.
Qed.

Lemma apply_valid a s w :
  isValidSettings s = true →
  applySettingsAndStartPolling a s w
  = (withInFlight (stopPollingForAction a w)
       (inFlight w ++ [{| flAction := a; flSettings := s; flThen := StartPolling |}]),
     [EFetch (endpoint s) (requestHeaders s)]).
Proof.
  intros Hv. unfold applySettingsAndStartPolling, beginCycle.
  by rewrite Hv, stop_inFlight.
Qed.

Lemma apply_settings a s w :
  settings <$> actionStates (applySettingsAndStartPolling a s w).1 !! a
  = settings <$> actionStates w !! a.
Proof.
  destruct (isValidSettings s) eqn:Hv.
  - rewrite apply_valid by done. simpl. apply stop_settings.
  - rewrite apply_invalid by done. simpl. apply stop_settings.
Qed.

Lemma settle_last w l f net :
  inFlight w = l ++ [f] →
  settleCycle (length l) net w
  = ((resume (flThen f) (flAction f) (flSettings f) (withInFlight w l)).1,
     (afterFetch (flAction f) (flSettings f) net).1
     ++ (resume (flThen f) (flAction f) (flSettings f) (withInFlight w l)).2).
Proof.
  intros Hl. unfold settleCycle. rewrite Hl, list_lookup_middle by done.
  rewrite afterFetch_returns, delete_middle, app_nil_r.
  by destruct (resume _ _ _ _).
Qed.

Lemma valid_interval s x :
  isValidSettings s = true → pollingInterval s = Some x → truthyNumber x = true.
Proof.
  unfold isValidSettings. intros H Hx. rewrite Hx in H. simpl in H.
  by apply andb_true_iff in H as [[_ ?]%andb_true_iff _].
Qed.

(** [startPolling] with the interval of valid settings: the fallback of 5
    seconds is not used. *)
Lemma startPolling_valid a s x w :
  isValidSettings s = true → pollingInterval s = Some x →
  startPolling a s w
  = let w' := (setInterval a (x * 1000)%float w).2 in
    match actionStates w !! a with
    | Some st =>
        (withStates w' (<[a := {| settings := settings st;
                                  timerId := Some (nextTimeout w) |}]> (actionStates w)), [])
    | None => (w', [EUncaught "Cannot set properties of undefined (setting 'timerId')"])
    end.
Proof.
  intros Hv Hx. unfold startPolling. by rewrite Hx, (valid_interval s x Hv Hx).
Qed.

(** X12. When an instance disappears nothing is presented, its record is
    removed and the timer the record held is cancelled; afterwards a tick of
    any timer of the instance and a key press on it do nothing at all. *)
Theorem disappear_cleans_up (w : World) (actionId : string) (t : Timeout) :
  (step w (WillDisappear actionId)).2 = []
  ∧ actionStates (step w (WillDisappear actionId)).1 !! actionId = None
  ∧ (storedTimer w actionId = Some t →
     intervals (step w (WillDisappear actionId)).1 !! t = None)
  ∧ intervalCallback actionId t (step w (WillDisappear actionId)).1
    = ((step w (WillDisappear actionId)).1, [])
  ∧ step (step w (WillDisappear actionId)).1 (KeyDown actionId)
    = ((step w (WillDisappear actionId)).1, []).
Proof.
  simpl. unfold onWillDisappear. simpl.
  assert (Hgone : delete actionId (actionStates (stopPollingForAction actionId w))
                  !! actionId = None) by apply lookup_delete_eq.
  split; [done|]. split; [done|]. split; [apply stop_clears|]. split.
  - unfold intervalCallback. simpl. by rewrite Hgone.
  - unfold onKeyDown. simpl. by rewrite Hgone.
Qed.

Lemma disappear_cleans_up_witness :
  storedTimer polledWorld "key" = Some 0%nat
  ∧ intervals (step polledWorld (WillDisappear "key")).1 !! 0%nat = None.
Proof.
  assert (H : storedTimer polledWorld "key" = Some 0%nat) by (vm_compute; reflexivity).
  split; [exact H|].
  exact (proj1 (proj2 (proj2 (disappear_cleans_up polledWorld "key" 0%nat))) H).
Defined.






(** X14. When an instance disappears while the initial fetch of its valid
    settings is in flight, the settling of that fetch still creates the
    interval and then fails to store it: the handler's promise rejects with a
    TypeError, the instance has no record, and the interval stays live with
    nothing referring to it; its ticks do nothing. *)
Theorem disappear_during_initial_fetch (w : World) (actionId : string)
    (s : MoonrakerSettings) (x : number) (net : Awaited Response.t) (ev : Event) :
  isValidSettings s = true →
  pollingInterval s = Some x →
  ev = WillAppear actionId (Some s) ∨ ev = DidReceiveSettings actionId s →
  let gone := (step (step w ev).1 (WillDisappear actionId)).1 in
  let settled := step gone (FetchSettles (length (inFlight w)) net) in
  settled.2
  = (afterFetch actionId s net).1
    ++ [EUncaught "Cannot set properties of undefined (setting 'timerId')"]
  ∧ actionStates settled.1 !! actionId = None
  ∧ intervals settled.1 !! nextTimeout w
    = Some {| ivAction := actionId; ivDelay := (x * 1000)%float |}
  ∧ intervalCallback actionId (nextTimeout w) settled.1 = (settled.1, []).
Proof.
  intros Hv Hx Hev gone settled.
  assert (Hstep : ∃ w0, inFlight w0 = inFlight w ∧ nextTimeout w0 = nextTimeout w
                        ∧ step w ev = applySettingsAndStartPolling actionId s w0).
  { destruct Hev as [-> | ->].
    - by eexists (withStates w _).
    - simpl. unfold onDidReceiveSettings.
      destruct (actionStates w !! actionId); by eexists (withStates w _). }
  destruct Hstep as (w0 & Hfl & Hnext & Hstep).
  assert (Hnone : storedTimer (step w ev).1 actionId = None)
    by (rewrite Hstep; apply apply_storedTimer).
  assert (Hgone : gone = withStates (step w ev).1
                           (delete actionId (actionStates (step w ev).1))).
  { subst gone. simpl. unfold onWillDisappear. simpl. by rewrite stop_noop. }
  assert (Hlookup : actionStates gone !! actionId = None).
  { rewrite Hgone. simpl. apply lookup_delete_eq. }
  assert (Hin : inFlight gone
                = inFlight w ++ [{| flAction := actionId; flSettings := s;
                                    flThen := StartPolling |}]).
  { rewrite Hgone, Hstep, apply_valid by done. simpl. by rewrite Hfl. }
  assert (Hnt : nextTimeout gone = nextTimeout w).
  { rewrite Hgone, Hstep, apply_valid by done. simpl. by rewrite stop_nextTimeout. }
  subst settled. clear Hgone. clearbody gone.
  simpl. rewrite (settle_last _ _ _ net Hin). simpl.
  rewrite (startPolling_valid _ _ x) by done. simpl. rewrite Hlookup. simpl.
  rewrite Hnt, lookup_insert_eq. unfold intervalCallback. simpl. by rewrite Hlookup.
Qed.

Lemma disappear_during_initial_fetch_witness :
  isValidSettings sampleSettings = true
  ∧ (step (step (step initialWorld (WillAppear "key" (Some sampleSettings))).1
                (WillDisappear "key")).1
          (FetchSettles 0 (Rejected "fetch failed"))).2
    = (afterFetch "key" sampleSettings (Rejected "fetch failed")).1
      ++ [EUncaught "Cannot set properties of undefined (setting 'timerId')"].
Proof.
  assert (Hv : isValidSettings sampleSettings = true) by (vm_compute; reflexivity).
  split; [exact Hv|].
  exact (proj1 (disappear_during_initial_fetch initialWorld "key" sampleSettings 5%float
           (Rejected "fetch failed") (WillAppear "key" (Some sampleSettings))
           Hv eq_refl (or_introl eq_refl))).
Defined.

(** X15. For an instance whose record holds no timer, or that has no record,
    a settings change does what an appearance with these settings does: the
    fallback of [onDidReceiveSettings] for a missing record is the
    initialisation of [onWillAppear]. *)
Theorem settings_change_without_timer (w : World) (actionId : string)
    (s : MoonrakerSettings) :
  storedTimer w actionId = None →
  step w (DidReceiveSettings actionId s) = step w (WillAppear actionId (Some s)).
Proof.
  simpl. unfold onDidReceiveSettings, onWillAppear, storedTimer.
  destruct (actionStates w !! actionId) as [st|]; simpl; [|done]. by intros ->.
Qed.

Lemma settings_change_without_timer_witness :
  storedTimer initialWorld "key" = None
  ∧ step initialWorld (DidReceiveSettings "key" sampleSettings)
    = step initialWorld (WillAppear "key" (Some sampleSettings)).
Proof.
  split; [reflexivity|].
  exact (settings_change_without_timer initialWorld "key" sampleSettings eq_refl).
Defined.

(** X16. A key press never changes a record, a timer or the next timer
    identity. On an instance without a record it does nothing; on one with a
    record it starts one cycle with the settings stored at that moment: the
    request for valid settings, the Settings Invalid title otherwise. *)
Theorem key_press_keeps_timers (w : World) (actionId : string) :
  actionStates (step w (KeyDown actionId)).1 = actionStates w
  ∧ intervals (step w (KeyDown actionId)).1 = intervals w
  ∧ nextTimeout (step w (KeyDown actionId)).1 = nextTimeout w
  ∧ match actionStates w !! actionId with
    | None => step w (KeyDown actionId) = (w, [])
    | Some st =>
        (step w (KeyDown actionId)).2
        = if isValidSettings (settings st)
          then [EFetch (endpoint (settings st)) (requestHeaders (settings st))]
          else [ESetTitle actionId ("Settings" +:+ nl +:+ "Invalid")]
    end.
Proof.
  simpl. unfold onKeyDown, beginCycle.
  destruct (actionStates w !! actionId) as [st|]; [|done].
  by destruct (isValidSettings (settings st)).
Qed.

Lemma fetchCalls_cons (e : Effect) (l : list Effect) :
  fetchCalls (e :: l) = ((if isFetch e then 1 else 0) + fetchCalls l)%nat.
Proof.
  change (e :: l) with ([e] ++ l). rewrite fetchCalls_app. by destruct e.
Qed.

Lemma resume_no_fetch k a s w : fetchCalls (resume k a s w).2 = 0%nat.
Proof.
  destruct k; simpl; [done|]. unfold startPolling, setInterval. simpl.
  by destruct (actionStates w !! a).
Qed.

Lemma beginCycle_fetches k a s w : (fetchCalls (beginCycle a s k w).2 <= 1)%nat.
Proof.
  unfold beginCycle. destruct (isValidSettings s); simpl; [done|].
  pose proof (resume_no_fetch k a s w) as H.
  destruct (resume k a s w) as [w0 effects]. simpl in *.
  rewrite fetchCalls_cons, H. simpl. lia.
Qed.

(** X17. One turn of the event loop calls [fetch] at most once, and the
    settling of a fetch and a disappearance never do: a failed request is not
    retried, the next request waits for the next tick or key press. *)
Theorem one_fetch_per_event (w : World) (ev : Event) (i : nat)
    (net : Awaited Response.t) (actionId : string) :
  (fetchCalls (step w ev).2 <= 1)%nat
  ∧ fetchCalls (step w (FetchSettles i net)).2 = 0%nat
  ∧ fetchCalls (step w (WillDisappear actionId)).2 = 0%nat.
Proof.
  assert (Hsettle : ∀ j n, fetchCalls (step w (FetchSettles j n)).2 = 0%nat).
  { intros j n. simpl. unfold settleCycle.
    destruct (inFlight w !! j) as [f|]; [|done].
    rewrite afterFetch_returns.
    pose proof (resume_no_fetch (flThen f) (flAction f) (flSettings f)
                  (withInFlight w (delete j (inFlight w)))) as H.
    destruct (resume _ _ _ _). simpl in *.
    by rewrite fetchCalls_app, afterFetch_no_fetch, H. }
  split; [|split; [apply Hsettle | done]].
  destruct ev as [a payload|a|a newSettings|a|t|j n].
  - simpl. unfold onWillAppear, applySettingsAndStartPolling.
    destruct (isValidSettings _); [apply beginCycle_fetches | simpl; unfold fetchCalls; simpl; lia].
  - simpl. unfold fetchCalls. simpl. lia.
  - simpl. unfold onDidReceiveSettings, applySettingsAndStartPolling.
    destruct (isValidSettings _); [apply beginCycle_fetches | simpl; unfold fetchCalls; simpl; lia].
  - simpl. unfold onKeyDown.
    destruct (actionStates w !! a); [apply beginCycle_fetches | simpl; unfold fetchCalls; simpl; lia].
  - simpl. destruct (intervals w !! t) as [iv|]; [|unfold fetchCalls; simpl; lia].
    unfold intervalCallback.
    destruct (actionStates w !! ivAction iv); [|unfold fetchCalls; simpl; lia].
    destruct (decide _); [apply beginCycle_fetches | unfold fetchCalls; simpl; lia].
  - rewrite Hsettle. lia.
Qed.

(** X18. Polling polls with the settings of the moment: in every world the
    events can lead to, a tick of the timer stored in a record whose settings
    are valid issues exactly one request, built from the settings the record
    holds at the tick, and changes nothing but the fetches in flight. *)
Theorem stored_timer_tick_fetches (evs : list Event) (actionId : string)
    (st : ActionState) (t : Timeout) :
  actionStates (run initialWorld evs).1 !! actionId = Some st →
  timerId st = Some t →
  isValidSettings (settings st) = true →
  step (run initialWorld evs).1 (TimerFires t)
  = (withInFlight (run initialWorld evs).1
       (inFlight (run initialWorld evs).1
        ++ [{| flAction := actionId; flSettings := settings st; flThen := Finished |}]),
     [EFetch (endpoint (settings st)) (requestHeaders (settings st))]).
Proof.
  intros Hst Ht Hv.
  destruct (wf_run evs initialWorld wf_initial) as [_ HB].
  destruct (HB actionId t) as (iv & Hiv & Hown).
  { unfold storedTimer. by rewrite Hst. }
  simpl. rewrite Hiv, Hown. unfold intervalCallback, beginCycle.
  rewrite Hst, Hv. by destruct (decide (timerId st = Some t)).
Qed.

Lemma stored_timer_tick_fetches_witness :
  actionStates (run initialWorld polledEvents).1 !! "key"
  = Some {| settings := sampleSettings; timerId := Some 0%nat |}
  ∧ (step (run initialWorld polledEvents).1 (TimerFires 0%nat)).2
    = [EFetch (endpoint sampleSettings) (requestHeaders sampleSettings)].
Proof.
  assert (H : actionStates (run initialWorld polledEvents).1 !! "key"
              = Some {| settings := sampleSettings; timerId := Some 0%nat |})
    by (vm_compute; reflexivity).
  split; [exact H|].
  rewrite (stored_timer_tick_fetches polledEvents "key" _ 0%nat H eq_refl
             ltac:(vm_compute; reflexivity)).
  reflexivity.
Defined.

Lemma apply_storedTimer_of a s w actionId :
  storedTimer (applySettingsAndStartPolling a s w).1 actionId
  = if decide (a = actionId) then None else storedTimer w actionId.
Proof.
  unfold applySettingsAndStartPolling.
  destruct (isValidSettings s) eqn:Hv; simpl; [|apply stop_storedTimer].
  unfold beginCycle. rewrite Hv. simpl.
  change (storedTimer (stopPollingForAction a w) actionId
          = if decide (a = actionId) then None else storedTimer w actionId).
  apply stop_storedTimer.
Qed.

Lemma beginCycle_finished_states a s w :
  actionStates (beginCycle a s Finished w).1 = actionStates w.
Proof. unfold beginCycle. by destruct (isValidSettings s). Qed.

(** Only the settling of a fetch puts a timer into a record: any other event
    leaves a record without a timer as it is, or clears it. *)
Lemma timer_stored_by_settling w ev actionId :
  settles ev = false → storedTimer w actionId = None →
  storedTimer (step w ev).1 actionId = None.
Proof.
  intros Hev Hnone. destruct ev as [a payload|a|a newSettings|a|t|i net]; [| | | | |done].
  - simpl. unfold onWillAppear. cbv zeta. rewrite apply_storedTimer_of.
    destruct (decide (a = actionId)); [done|].
    rewrite storedTimer_insert. by destruct (decide (a = actionId)).
  - simpl. unfold onWillDisappear, storedTimer. simpl.
    destruct (decide (a = actionId)) as [->|Hne].
    + by rewrite lookup_delete_eq.
    + rewrite lookup_delete_ne by done.
      pose proof (stop_storedTimer a w actionId) as Hstop.
      destruct (decide (a = actionId)); [done|].
      unfold storedTimer in Hstop, Hnone. by rewrite Hstop.
  - simpl. unfold onDidReceiveSettings.
    destruct (actionStates w !! a) as [cur|]; rewrite apply_storedTimer_of;
      destruct (decide (a = actionId)) as [|Hne]; try done;
      rewrite storedTimer_insert; by destruct (decide (a = actionId)).
  - simpl. unfold onKeyDown, storedTimer.
    destruct (actionStates w !! a); [|done]. by rewrite beginCycle_finished_states.
  - simpl. destruct (intervals w !! t) as [iv|]; [|done].
    unfold intervalCallback, storedTimer.
    destruct (actionStates w !! ivAction iv); [|done].
    destruct (decide _); [|done]. by rewrite beginCycle_finished_states.
Qed.

Lemma timer_stored_by_settling_run evs w actionId :
  forallb (λ ev, negb (settles ev)) evs = true → storedTimer w actionId = None →
  storedTimer (run w evs).1 actionId = None.
Proof.
  revert w. induction evs as [|ev evs IH]; intros w Hevs Hnone; [done|].
  simpl in Hevs. apply andb_true_iff in Hevs as [Hev%negb_true_iff Hevs].
  pose proof (timer_stored_by_settling w ev actionId Hev Hnone) as Hstep.
  specialize (IH (step w ev).1 Hevs Hstep).
  cbn [run]. destruct (step w ev) as [w1 e1]. simpl in IH. by destruct (run w1 evs).
Qed.

(** X19. After an appearance or a settings change the record of the instance
    holds exactly the settings of the event, valid or not (the empty settings
    when the appearance carries none, which shows Settings Required), and no
    timer. Only the settling of a fetch stores a timer: whatever events
    follow, as long as none of them is the settling of a fetch (of this or of
    an earlier event) the record stays without a timer. *)
Theorem record_holds_event_settings (w : World) (actionId : string)
    (s : MoonrakerSettings) (payload : option MoonrakerSettings) (evs : list Event) :
  settings <$> actionStates (step w (DidReceiveSettings actionId s)).1 !! actionId = Some s
  ∧ settings <$> actionStates (step w (WillAppear actionId payload)).1 !! actionId
    = Some (default emptySettings payload)
  ∧ storedTimer (step w (DidReceiveSettings actionId s)).1 actionId = None
  ∧ storedTimer (step w (WillAppear actionId payload)).1 actionId = None
  ∧ (step w (WillAppear actionId None)).2
    = [ESetTitle actionId ("Settings" +:+ nl +:+ "Required")]
  ∧ (forallb (λ ev, negb (settles ev)) evs = true →
     storedTimer (run (step w (DidReceiveSettings actionId s)).1 evs).1 actionId = None
     ∧ storedTimer (run (step w (WillAppear actionId payload)).1 evs).1 actionId = None).
Proof.
  assert (Hchange : storedTimer (step w (DidReceiveSettings actionId s)).1 actionId = None).
  { unfold step, onDidReceiveSettings. by rewrite apply_storedTimer. }
  assert (Happear : storedTimer (step w (WillAppear actionId payload)).1 actionId = None).
  { unfold step, onWillAppear. cbv zeta. by rewrite apply_storedTimer. }
  split; [|split; [|split; [done|split; [done|split]]]].
  - unfold step, onDidReceiveSettings. rewrite apply_settings.
    by destruct (actionStates w !! actionId); simpl; rewrite lookup_insert_eq.
  - unfold step, onWillAppear. cbv zeta. rewrite apply_settings.
    simpl. by rewrite lookup_insert_eq.
  - unfold step, onWillAppear. cbv zeta. by rewrite apply_invalid.
  - intros Hevs. split; by apply timer_stored_by_settling_run.
Qed.

Lemma record_holds_event_settings_witness :
  forallb (λ ev, negb (settles ev))
          [KeyDown "key"; TimerFires 0%nat; DidReceiveSettings "other" otherSettings] = true
  ∧ storedTimer
      (run (step polledWorld (DidReceiveSettings "key" otherSettings)).1
           [KeyDown "key"; TimerFires 0%nat; DidReceiveSettings "other" otherSettings]).1
      "key" = None.
Proof.
  split; [reflexivity|].
  exact (proj1 (proj2 (proj2 (proj2 (proj2 (proj2
           (record_holds_event_settings polledWorld "key" otherSettings None
              [KeyDown "key"; TimerFires 0%nat; DidReceiveSettings "other" otherSettings])))))
           eq_refl)).
Defined.

End Lifecycle.
